(** * aws-cwlogs-util: stream discovery and event polling

    A shallow embedding of the two programs of the repository:

    - [Refresh]: main.go, the polling loop that re-discovers streams every
      five minutes or on SIGUSR1, sorts each cycle's events by ingestion
      time and moves the start of the window past the newest event;
    - [Batch]: the second program, which bounds discovery by a window end,
      queries the streams in batches and prints pages from goroutines.

    Timestamps are Go [int64] values: they are integers of [Z], and every
    addition, subtraction and multiplication of the source goes through
    [wrap64]. *)

From Stdlib Require Import Ascii.
From stdpp Require Import gmap strings list sorting.

Local Open Scope Z_scope.

(** ** Machine integers *)

Definition wrap64 (z : Z) : Z := (z + 2 ^ 63) `mod` 2 ^ 64 - 2 ^ 63.

Definition maxInt64 : Z := 2 ^ 63 - 1.
Definition minInt64 : Z := - 2 ^ 63.

(** ** The SDK's data (package cloudwatchlogs)

    Only the fields the programs read are kept.  A field the programs
    test against [nil] is an [option]; the string fields are taken to be
    present, as both programs dereference them without a test. *)

Module LogStream.
Record t := mk { LogStreamName : string; LastEventTimestamp : option Z }.
End LogStream.

Module DescribeLogStreamsOutput.
Record t := mk { LogStreams : list LogStream.t; NextToken : option string }.
End DescribeLogStreamsOutput.

Module FilteredLogEvent.
Record t := mk {
  EventId : string;
  LogStreamName : string;
  Timestamp : Z;
  IngestionTime : Z;
  Message : string }.
End FilteredLogEvent.

Global Instance FilteredLogEvent_eq_dec : EqDecision FilteredLogEvent.t.
Proof. solve_decision. Defined.

(** LogGroupName and FilterPattern are fixed for a run and left out. *)
Module FilterLogEventsInput.
Record t := mk { LogStreamNames : list string; StartTime : Z; EndTime : Z }.
End FilterLogEventsInput.

(** A paginator.  [Next()] hands out [pages] one after the other; once
    they are used up it answers false, from then on for ever, and [Err()]
    is non-nil exactly when [fails] is set (the request after the last
    delivered page failed).  While a page is being handed out [Err()] is
    nil. *)
Record Pager (P : Type) := mkPager { pages : list P; fails : bool }.
Arguments mkPager {P} _ _.
Arguments pages {P} _.
Arguments fails {P} _.

(** What a loop body tells the loops around it. *)
Inductive Flow (A : Type) :=
  | Go (a : A)          (* fall through to the next iteration *)
  | BreakLoop (a : A)   (* [break loop]: leave the labelled loop *)
  | Panic.              (* nil pointer dereference *)
Arguments Go {A} _.
Arguments BreakLoop {A} _.
Arguments Panic {A}.

(** How a call ends. *)
Inductive Outcome (A : Type) :=
  | Returns (a : A)
  | Panics
  | Spins.              (* a loop whose exit condition can no longer turn true *)
Arguments Returns {A} _.
Arguments Panics {A}.
Arguments Spins {A}.

Definition threeHours : Z := 3 * 60 * 60 * 1000.

(** [0 < len(FindAllStringIndex(name, -1))] for the pattern obtained from a
    literal by [regexp.MustCompile]: the literal occurs somewhere in the
    name.  Used to instantiate the matcher, which the programs take from
    the regexp package. *)
Definition occursIn (literal name : string) : bool :=
  match String.index 0 literal name with
  | Some _ => true
  | None => false
  end.

(** * main.go *)

Module Refresh.

Import LogStream DescribeLogStreamsOutput.

(** ** getLogStreams *)

(** The variables of [getLogStreams]; [consumed] is a ghost counter of the
    pages [Next()] has delivered. *)
Record Scan := mkScan {
  logStreamNames : list string;
  matched : gmap string bool;
  found : bool;
  consumed : nat }.

Definition emptyScan : Scan := mkScan [] ∅ false 0.

(** [matched[name]]: a missing key reads as false. *)
Definition isMatched (s : Scan) (name : string) : bool :=
  default false (matched s !! name).

Section Discovery.

(** [0 < len(logStreamMatcher.FindAllStringIndex(name, -1))] *)
Variable logStreamMatcher : string → bool.

(** Lines 47-57, for one item of the page. *)
Definition visit (logStreamMinTimestamp : Z) (item : LogStream.t) (s : Scan)
  : Flow Scan :=
  match LastEventTimestamp item with
  | None => Panic
  | Some ts =>
      let name := LogStreamName item in
      let s' :=
        if (logStreamMinTimestamp <=? ts)
           && (logStreamMatcher name && negb (isMatched s name))
        then mkScan (logStreamNames s ++ [name])
                    (<[name := true]> (matched s)) true (consumed s)
        else s in
      if logStreamMinTimestamp >? ts then BreakLoop s' else Go s'
  end.

(** Line 46: [for _, item := range ...LogStreams]. *)
Fixpoint rangeItems (logStreamMinTimestamp : Z) (items : list LogStream.t)
    (s : Scan) : Flow Scan :=
  match items with
  | [] => Go s
  | item :: rest =>
      match visit logStreamMinTimestamp item s with
      | Go s' => rangeItems logStreamMinTimestamp rest s'
      | stop => stop
      end
  end.

(** Lines 44-63: [for describeLogStreamsRequestIter.Next()].  The test of
    line 59 is never true here: [Err()] is nil after a delivered page. *)
Fixpoint pagerLoop (logStreamMinTimestamp : Z)
    (pending : list DescribeLogStreamsOutput.t) (s : Scan) : Flow Scan :=
  match pending with
  | [] => Go s
  | page :: rest =>
      let s1 := mkScan (logStreamNames s) (matched s) (found s)
                       (S (consumed s)) in
      match rangeItems logStreamMinTimestamp (LogStreams page) s1 with
      | Go s' => pagerLoop logStreamMinTimestamp rest s'
      | stop => stop
      end
  end.

(** Lines 41-67: the labelled [for].  After its first round the paginator
    is used up, so later rounds see no page.  [None]: out of fuel. *)
Fixpoint outerLoop (fuel : nat) (logStreamMinTimestamp : Z)
    (pending : list DescribeLogStreamsOutput.t) (err : bool) (s : Scan)
  : option (Outcome Scan) :=
  match fuel with
  | O => None
  | S fuel' =>
      let s0 := mkScan (logStreamNames s) (matched s) false (consumed s) in
      match pagerLoop logStreamMinTimestamp pending s0 with
      | Panic => Some Panics
      | BreakLoop s' => Some (Returns s')
      | Go s' =>
          if negb (found s') && negb err then Some (Returns s')
          else outerLoop fuel' logStreamMinTimestamp [] err s'
      end
  end.

(** The whole scan.  Two rounds decide it: without an error the second
    round finds nothing and leaves; with one, no round can leave
    ([outerLoop_spins] below). *)
Definition scanStreams (it : Pager DescribeLogStreamsOutput.t)
    (initialStartTime : Z) : Outcome Scan :=
  let logStreamMinTimestamp := wrap64 (initialStartTime - threeHours) in
  match outerLoop 2 logStreamMinTimestamp (pages it) (fails it) emptyScan with
  | Some r => r
  | None => Spins
  end.

Definition getLogStreams (it : Pager DescribeLogStreamsOutput.t)
    (initialStartTime : Z) : Outcome (list string) :=
  match scanStreams it initialStartTime with
  | Returns s => Returns (logStreamNames s)
  | Panics => Panics
  | Spins => Spins
  end.

End Discovery.

(** *** Vocabulary for the statements about the scan *)

(** The candidate's last event is older than the lookback bound. *)
Definition isOld (bound : Z) (item : LogStream.t) : bool :=
  match LastEventTimestamp item with
  | Some ts => bound >? ts
  | None => false
  end.

(** The candidate has a last event, not older than the bound. *)
Definition isFresh (bound : Z) (item : LogStream.t) : bool :=
  match LastEventTimestamp item with
  | Some ts => bound <=? ts
  | None => false
  end.

(** The candidates up to and including the first old one. *)
Fixpoint reached (bound : Z) (items : list LogStream.t) : list LogStream.t :=
  match items with
  | [] => []
  | item :: rest => item :: (if isOld bound item then [] else reached bound rest)
  end.

(** All candidates of a listing, in the order of the pages. *)
Definition candidates (ps : list DescribeLogStreamsOutput.t) : list LogStream.t :=
  concat (LogStreams <$> ps).

(** The number of pages up to and including the first one that carries an
    old candidate; all of them when there is none. *)
Fixpoint cutoffPage (bound : Z) (ps : list DescribeLogStreamsOutput.t) : nat :=
  match ps with
  | [] => 0
  | page :: rest =>
      S (if existsb (isOld bound) (LogStreams page) then 0
         else cutoffPage bound rest)
  end.

(** A name is selected from [items]: some candidate of that name is fresh
    and the name matches. *)
Definition selected (logStreamMatcher : string → bool) (bound : Z)
    (n : string) (items : list LogStream.t) : Prop :=
  ∃ item, item ∈ items ∧ LogStreamName item = n
          ∧ isFresh bound item = true ∧ logStreamMatcher n = true.

(** The scan's invariant: [matched] is the set of the names collected,
    and none was collected twice. *)
Definition consistent (s : Scan) : Prop :=
  NoDup (logStreamNames s) ∧ ∀ n, isMatched s n = true ↔ n ∈ logStreamNames s.

(** ** type msg and its ordering (lines 75-79) *)

(** [msg.Less]: by ingestion time, not by timestamp. *)
Definition Less (a b : FilteredLogEvent.t) : bool :=
  FilteredLogEvent.IngestionTime a <? FilteredLogEvent.IngestionTime b.

(** The order [sort.Sort] establishes: no element is [Less] than one
    before it. *)
Definition inOrder (a b : FilteredLogEvent.t) : Prop := Less b a = false.

Global Instance inOrder_dec a b : Decision (inOrder a b).
Proof. unfold inOrder. apply _. Defined.

(** [sort.Sort(msg(output))].  Go leaves the order of elements that
    compare equal open; the merge sort below is one such order, and the
    statements about it use only that the result is in order and a
    permutation of the input. *)
Definition sortMsg (output : list FilteredLogEvent.t) : list FilteredLogEvent.t :=
  merge_sort inOrder output.

(** ** main *)

(** The clock, as nanoseconds since the Unix epoch.  [time.Time{}] is
    January 1 of year 1. *)
Definition zeroTime : Z := -62135596800 * 10 ^ 9.
Definition fiveMinutes : Z := 5 * 60 * 10 ^ 9.
Definition fiveSeconds : Z := 5 * 10 ^ 9.

(** [time.Since(start)]: a Duration, which saturates. *)
Definition since (now start : Z) : Z :=
  Z.min maxInt64 (Z.max minInt64 (now - start)).

(** The variables of [main] that live across iterations.
    [filterLogEventsInput.StartTime] and [.EndTime] point to
    [startTimeUnix] and [endTimeUnix], so a request reads the current
    values of these two. *)
Record State := mkState {
  startTimeUnix : Z;
  endTimeUnix : Z;
  LogStreamNames : list string;
  start : Z }.

(** What the world offers during one iteration of the loop. *)
Record World := mkWorld {
  signal : bool;                    (* a SIGUSR1 waits in channel c *)
  now : Z;                          (* the clock *)
  describeLogStreams : Pager DescribeLogStreamsOutput.t;
  filterLogEvents : FilterLogEventsInput.t → Pager (list FilteredLogEvent.t) }.

Inductive Effect :=
  | Restarting                          (* line 164 *)
  | Discovering                         (* the call of line 172 *)
  | Requested (input : FilterLogEventsInput.t)   (* line 178 *)
  | Printed (o : FilteredLogEvent.t)    (* line 204 *)
  | ErrorPaging                         (* line 209 *)
  | Slept (d : Z).                      (* time.Sleep *)

(** How one iteration of [for] ends. *)
Inductive Next :=
  | Loop (st : State)     (* next iteration *)
  | Done                  (* main returns *)
  | Panicked
  | Spinning.

Definition printedOf (fx : list Effect) : list FilteredLogEvent.t :=
  omap (λ e, match e with Printed o => Some o | _ => None end) fx.

Definition sleptOf (fx : list Effect) : list Z :=
  omap (λ e, match e with Slept d => Some d | _ => None end) fx.

(** Lines 192-199. *)
Definition latestOf (output : list FilteredLogEvent.t) : Z :=
  foldl (λ latest row,
           if FilteredLogEvent.Timestamp row >? latest
           then FilteredLogEvent.Timestamp row else latest) 0 output.

Section Main.

Variable logStreamMatcher : string → bool.
Variable logStreamRefresh : bool.     (* *logStreamRefreshInput *)
Variable endTimeIsZero : bool.        (* endTime.IsZero() *)

(** Lines 161-168.  Only SIGUSR1 is routed to the channel. *)
Definition receive (st : State) (w : World) : list Effect * State :=
  if signal w
  then ([Restarting],
        mkState (startTimeUnix st) (endTimeUnix st) (LogStreamNames st) zeroTime)
  else ([], st).

(** Lines 170-177.  [getLogStreams] returns a nil error whenever it
    returns, so the branch of lines 173-176 is never taken. *)
Definition discover (st : State) (w : World) : list Effect * Outcome State :=
  if since (now w) (start st) >? fiveMinutes then
    ([Discovering],
     match getLogStreams logStreamMatcher (describeLogStreams w) (startTimeUnix st) with
     | Returns names =>
         Returns (mkState (startTimeUnix st) (endTimeUnix st) names (now w))
     | Panics => Panics
     | Spins => Spins
     end)
  else ([], Returns st).

(** The request of line 178. *)
Definition request (st : State) : FilterLogEventsInput.t :=
  FilterLogEventsInput.mk (LogStreamNames st) (startTimeUnix st) (endTimeUnix st).

(** Lines 178-229.  [endTime.UnixNano()/(1000*1000)] of line 213 is the
    value [endTimeUnix] got in line 141 and kept. *)
Definition fetch (st : State) (w : World) : list Effect * Next :=
  let it := filterLogEvents w (request st) in
  let output := concat (pages it) in
  let latest := latestOf output in
  let printed := Requested (request st) :: (Printed <$> sortMsg output) in
  if fails it then (printed ++ [ErrorPaging], Loop st)
  else if negb endTimeIsZero && (endTimeUnix st <=? latest) then (printed, Done)
  else if bool_decide (length output = 0%nat)
  then (printed ++ [Slept fiveSeconds], Loop st)
  else
    let st' := mkState (wrap64 (latest + 1)) (endTimeUnix st)
                       (LogStreamNames st) (start st) in
    if negb logStreamRefresh then (printed, Done) else (printed, Loop st').

(** One iteration of the [for] of line 159. *)
Definition iteration (st : State) (w : World) : list Effect * Next :=
  let '(fx0, st0) := receive st w in
  match discover st0 w with
  | (fx1, Returns st1) =>
      let '(fx2, nx) := fetch st1 w in (fx0 ++ fx1 ++ fx2, nx)
  | (fx1, Panics) => (fx0 ++ fx1, Panicked)
  | (fx1, Spins) => (fx0 ++ fx1, Spinning)
  end.

(** The loop against a finite stretch of the world: the effects of each
    iteration, and how the last one ended. *)
Fixpoint run (st : State) (ws : list World) : list (list Effect) * Next :=
  match ws with
  | [] => ([], Loop st)
  | w :: rest =>
      match iteration st w with
      | (fx, Loop st') => let '(t, nx) := run st' rest in (fx :: t, nx)
      | (fx, stop) => ([fx], stop)
      end
  end.

(** What each iteration printed. *)
Definition blocks (st : State) (ws : list World) : list (list FilteredLogEvent.t) :=
  printedOf <$> (run st ws).1.

End Main.

(** *** Vocabulary for the statements about the loop *)

(** The events the backend returns to the request of a state. *)
Definition answer (st : State) (w : World) : list FilteredLogEvent.t :=
  concat (pages (filterLogEvents w (request st))).

(** The backend returns no event from before the requested start, and no
    timestamp is the largest [int64]. *)
Definition honest (w : World) : Prop :=
  ∀ input e, e ∈ concat (pages (filterLogEvents w input)) →
    FilterLogEventsInput.StartTime input ≤ FilteredLogEvent.Timestamp e
    ∧ FilteredLogEvent.Timestamp e < maxInt64.

(** The backend returns no event from after the requested end; an event at
    the very end is within the range. *)
Definition bounded (w : World) : Prop :=
  ∀ input e, e ∈ concat (pages (filterLogEvents w input)) →
    FilteredLogEvent.Timestamp e ≤ FilterLogEventsInput.EndTime input.

(** No request fails. *)
Definition unfailing (w : World) : Prop :=
  ∀ input, fails (filterLogEvents w input) = false.

(** No answer carries an event twice. *)
Definition distinct (w : World) : Prop :=
  ∀ input, NoDup (concat (pages (filterLogEvents w input))).

(** Every event of the first block is older than every event of the
    second. *)
Definition before (b1 b2 : list FilteredLogEvent.t) : Prop :=
  ∀ e1 e2, e1 ∈ b1 → e2 ∈ b2 →
    FilteredLogEvent.Timestamp e1 < FilteredLogEvent.Timestamp e2.

(** Non-decreasing ingestion time. *)
Definition byIngestion (a b : FilteredLogEvent.t) : Prop :=
  FilteredLogEvent.IngestionTime a ≤ FilteredLogEvent.IngestionTime b.

End Refresh.

(** * The second program *)

Module Batch.

Import LogStream DescribeLogStreamsOutput.

(** [var timeOffset = -int64(60 * 1000)] *)
Definition timeOffset : Z := wrap64 (- wrap64 (60 * 1000)).

(** ** getLogStreams *)

Record Scan := mkScan {
  logStreamNames : list string;
  encounteredLaterTimestamp : bool;
  consumed : nat }.

Definition emptyScan : Scan := mkScan [] false 0.

Section Discovery.

Variable logStreamMatcher : string → bool.

(** Lines 286-295, for one item of the page. *)
Definition visit (logStreamMinTimestamp logStreamMaxTimestamp : Z)
    (item : LogStream.t) (s : Scan) : Scan :=
  match LastEventTimestamp item with
  | None => s
  | Some ts =>
      if (logStreamMinTimestamp <=? ts) && (ts <? logStreamMaxTimestamp) then
        if logStreamMatcher (LogStreamName item)
        then mkScan (logStreamNames s ++ [LogStreamName item])
                    (encounteredLaterTimestamp s) (consumed s)
        else s
      else if logStreamMaxTimestamp <=? ts
      then mkScan (logStreamNames s) true (consumed s)
      else s
  end.

Definition rangeItems (lo hi : Z) (items : list LogStream.t) (s : Scan) : Scan :=
  foldl (λ acc item, visit lo hi item acc) s items.

(** Lines 283-302.  [Err()] is nil after a delivered page, so of the
    tests of lines 297-301 only the one on [NextToken] can fire. *)
Fixpoint pagerLoop (lo hi : Z) (pending : list DescribeLogStreamsOutput.t)
    (s : Scan) : Scan :=
  if encounteredLaterTimestamp s then s
  else
    match pending with
    | [] => s
    | page :: rest =>
        let s1 := mkScan (logStreamNames s) (encounteredLaterTimestamp s)
                         (S (consumed s)) in
        let s' := rangeItems lo hi (LogStreams page) s1 in
        match NextToken page with
        | None => s'
        | Some _ => pagerLoop lo hi rest s'
        end
    end.

Definition scanStreams (it : Pager DescribeLogStreamsOutput.t)
    (minEventTime maxEventTime : Z) : Scan :=
  let logStreamMinTimestamp := wrap64 (minEventTime - wrap64 (60 * 60 * 1000 * 3)) in
  let logStreamMaxTimestamp := maxEventTime in
  pagerLoop logStreamMinTimestamp logStreamMaxTimestamp (pages it) emptyScan.

Definition getLogStreams (it : Pager DescribeLogStreamsOutput.t)
    (minEventTime maxEventTime : Z) : list string :=
  logStreamNames (scanStreams it minEventTime maxEventTime).

End Discovery.

(** *** Vocabulary for the statements about the scan *)

(** The candidate's last event lies in [[lo, hi)]. *)
Definition inWindow (lo hi : Z) (item : LogStream.t) : bool :=
  match LastEventTimestamp item with
  | Some ts => (lo <=? ts) && (ts <? hi)
  | None => false
  end.

(** The candidate's last event is at or after the end of the window. *)
Definition isLater (hi : Z) (item : LogStream.t) : bool :=
  match LastEventTimestamp item with
  | Some ts => hi <=? ts
  | None => false
  end.

(** The pages the loop of line 283 takes from the paginator: up to and
    including the first one that carries a later candidate or no token. *)
Fixpoint consumedPages (hi : Z) (ps : list DescribeLogStreamsOutput.t)
  : list DescribeLogStreamsOutput.t :=
  match ps with
  | [] => []
  | page :: rest =>
      page :: (if existsb (isLater hi) (LogStreams page) then []
               else match NextToken page with
                    | None => []
                    | Some _ => consumedPages hi rest
                    end)
  end.

Definition candidates (ps : list DescribeLogStreamsOutput.t) : list LogStream.t :=
  concat (LogStreams <$> ps).

(** The candidate is one the scan appends: last event in the window and
    name matching. *)
Definition picks (logStreamMatcher : string → bool) (lo hi : Z)
    (item : LogStream.t) : bool :=
  inWindow lo hi item && logStreamMatcher (LogStreamName item).

(** ** main *)

Definition oneSecond : Z := 10 ^ 9.

(** [logStreamNames[i:j]]; [None] is the run-time panic for bounds out of
    range. *)
Definition slice {A} (l : list A) (i j : Z) : option (list A) :=
  if (0 <=? i) && (i <=? j) && (j <=? Z.of_nat (length l))
  then Some (take (Z.to_nat (j - i)) (drop (Z.to_nat i) l))
  else None.

(** Lines 365-368. *)
Definition endOfRange (len i : Z) : Z :=
  let endOfRange := i + 99 in
  if len - 1 <? endOfRange then i + Z.rem len 100 else endOfRange.

(** Lines 364-369: the values [filterLogEventsInput.LogStreamNames] takes
    during one pass in which no request fails, from index [i] on.
    [None]: out of fuel. *)
Fixpoint batchesFrom (fuel : nat) (logStreamNames : list string) (i : Z)
  : option (Outcome (list (list string))) :=
  let len := Z.of_nat (length logStreamNames) in
  if i <? len then
    match fuel with
    | O => None
    | S fuel' =>
        match slice logStreamNames i (endOfRange len i) with
        | None => Some Panics
        | Some batch =>
            match batchesFrom fuel' logStreamNames (i + 100) with
            | Some (Returns rest) => Some (Returns (batch :: rest))
            | other => other
            end
        end
    end
  else Some (Returns []).

Definition batches (logStreamNames : list string)
  : option (Outcome (list (list string))) :=
  batchesFrom (length logStreamNames) logStreamNames 0.

(** The variables of [main] that live across iterations; [streamNames] is
    main's [logStreamNames]. *)
Record State := mkState {
  startTimeUnix : Z;
  endTimeUnix : Z;
  streamNames : list string }.

Record World := mkWorld {
  describeLogStreams : Pager DescribeLogStreamsOutput.t;
  filterLogEvents : FilterLogEventsInput.t → Pager (list FilteredLogEvent.t) }.

Inductive Effect :=
  | Printed (item : FilteredLogEvent.t)   (* line 377 *)
  | Slept (d : Z).                        (* time.Sleep *)

Inductive Next :=
  | Loop (st : State)
  | Done
  | Panicked.

Definition printedOf (fx : list Effect) : list FilteredLogEvent.t :=
  omap (λ e, match e with Printed o => Some o | _ => None end) fx.

(** Line 357: the end of the window when no end time is given;
    [nowUnix] is [time.Now().UTC().Unix()]. *)
Definition liveEnd (nowUnix : Z) : Z :=
  wrap64 (wrap64 (nowUnix * 1000) + timeOffset).

(** Lines 389-392.  [None]: out of fuel. *)
Fixpoint waitForEnd (fuel : nat) (startTimeUnix endTimeUnix : Z)
  : option (list Effect * Z) :=
  if endTimeUnix <=? startTimeUnix then
    match fuel with
    | O => None
    | S fuel' =>
        match waitForEnd fuel' startTimeUnix
                (wrap64 (wrap64 (wrap64 (endTimeUnix * 1000) + timeOffset) + 1000)) with
        | Some (fx, e) => Some (Slept oneSecond :: fx, e)
        | None => None
        end
    end
  else Some ([], endTimeUnix).

Section Main.

Variable logStreamMatcher : string → bool.
Variable logStreamRefresh : bool.        (* *logStreamRefreshInput *)
Variable live : bool.                    (* *endTimeInput == "" *)
Variable initialStartTimeUnix : Z.

(** Lines 364-385 over the batches of one pass.  Each page is printed by
    a goroutine of its own; the order below is the one in which the
    goroutines are started, one of the orders the scheduler may choose.
    The second component is [filterLogEventsError != nil]. *)
Fixpoint fetchBatches (bs : list (list string)) (st : State) (w : World)
  : list Effect * bool :=
  match bs with
  | [] => ([], false)
  | batch :: rest =>
      let it := filterLogEvents w
                  (FilterLogEventsInput.mk batch (startTimeUnix st) (endTimeUnix st)) in
      let fx := Printed <$> concat (pages it) in
      if fails it then (fx, true)
      else let '(fx', err) := fetchBatches rest st w in (fx ++ fx', err)
  end.

(** One iteration of the [for] of line 363.  [None]: out of fuel in the
    loop of line 389. *)
Definition iteration (fuel : nat) (st : State) (w : World)
  : option (list Effect * Next) :=
  if (0 <? Z.of_nat (length (streamNames st))) || live then
    match batches (streamNames st) with
    | None => None
    | Some Panics | Some Spins => Some ([], Panicked)
    | Some (Returns bs) =>
        let '(fx, err) := fetchBatches bs st w in
        if negb err && live then
          let startTimeUnix' := wrap64 (endTimeUnix st + 1000) in
          match waitForEnd fuel startTimeUnix' (endTimeUnix st) with
          | None => None
          | Some (fx', endTimeUnix') =>
              let names :=
                if logStreamRefresh
                then getLogStreams logStreamMatcher (describeLogStreams w)
                       initialStartTimeUnix endTimeUnix'
                else streamNames st in
              Some (fx ++ fx', Loop (mkState startTimeUnix' endTimeUnix' names))
          end
        else Some (fx, Done)
    end
  else Some ([], Done).

End Main.

End Batch.

(** * The label of a printed line (main.go, lines 203-204) *)

Module Label.

(** [strings.Split(s, "/")]: the pieces of [s] between the slashes; a
    string without a slash, the empty one too, is its own single piece. *)
Fixpoint Split (s : string) : list string :=
  match s with
  | EmptyString => [EmptyString]
  | String c rest =>
      if Ascii.eqb c "/"%char then EmptyString :: Split rest
      else match Split rest with
           | piece :: pieces => String c piece :: pieces
           | [] => [String c EmptyString]
           end
  end.

(** [strings.Join(elems, "/")] *)
Fixpoint Join (elems : list string) : string :=
  match elems with
  | [] => EmptyString
  | [piece] => piece
  | piece :: pieces => piece +:+ String "/"%char (Join pieces)
  end.

(** [strings.Join(p[:1], "/")] for [p := strings.Split(name, "/")];
    [None] is the panic of [p[:1]] on a slice without an element. *)
Definition shortName (name : string) : option string :=
  match Batch.slice (Split name) 0 1 with
  | Some p1 => Some (Join p1)
  | None => None
  end.

(** The string holds a slash. *)
Fixpoint hasSlash (s : string) : bool :=
  match s with
  | EmptyString => false
  | String c rest => Ascii.eqb c "/"%char || hasSlash rest
  end.

End Label.

(** * Vocabulary for further statements *)

(** The first occurrence of every name of [l] that is not in [seen]. *)
Fixpoint keepFirst (seen l : list string) : list string :=
  match l with
  | [] => []
  | n :: rest =>
      if bool_decide (n ∈ seen) then keepFirst seen rest
      else n :: keepFirst (seen ++ [n]) rest
  end.

(** The candidate is one [getLogStreams] of main.go takes, if it has not
    its name already: last event at or after the bound, name matching. *)
Definition takes (logStreamMatcher : string → bool) (bound : Z)
    (item : LogStream.t) : bool :=
  Refresh.isFresh bound item && logStreamMatcher (LogStream.LogStreamName item).

(** The names of the candidates [getLogStreams] of main.go would take,
    in their order, repetitions included. *)
Definition picked (logStreamMatcher : string → bool) (bound : Z)
    (items : list LogStream.t) : list string :=
  LogStream.LogStreamName <$> filter (λ i, takes logStreamMatcher bound i = true) items.

(** The candidate has no last event. *)
Definition untimed (item : LogStream.t) : bool :=
  match LogStream.LastEventTimestamp item with
  | None => true
  | Some _ => false
  end.

(** * Examples *)

(** A listing page from (name, last event) pairs, for the examples. *)
Definition listing (l : list (string * option Z)) (token : option string)
  : DescribeLogStreamsOutput.t :=
  DescribeLogStreamsOutput.mk ((λ p, LogStream.mk p.1 p.2) <$> l) token.

(** An event of stream app/bar-1, for the examples. *)
Definition event (id : string) (timestamp ingestion : Z) : FilteredLogEvent.t :=
  FilteredLogEvent.mk id "app/bar-1" timestamp ingestion "m".

(** A backend for the examples: it holds [events] and answers a request
    with one page of those from the requested start to the requested end,
    both included; [err] makes the request after that page fail. *)
Definition store (events : list FilteredLogEvent.t) (err : bool)
    (input : FilterLogEventsInput.t) : Pager (list FilteredLogEvent.t) :=
  mkPager
    [filter (λ e, FilterLogEventsInput.StartTime input ≤ FilteredLogEvent.Timestamp e
                  ∧ FilteredLogEvent.Timestamp e ≤ FilterLogEventsInput.EndTime input)
            events]
    err.

(** * Properties *)

(** Membership in an explicit list of other constructors is absurd. *)
Ltac absurd_elem H :=
  repeat (apply elem_of_cons in H as [H|H]; [discriminate H|]);
  by apply elem_of_nil in H.

(** ** Machine integers *)

Lemma wrap64_id z : minInt64 ≤ z ≤ maxInt64 → wrap64 z = z.
Proof.
  unfold wrap64, minInt64, maxInt64. intros Hz.
  rewrite Z.mod_small; lia.
Qed.

(** ** Discovery in main.go *)

Module RefreshFacts.
Import LogStream DescribeLogStreamsOutput Refresh.

Section Discovery.

Variable logStreamMatcher : string → bool.
Variable bound : Z.

Local Abbreviation selected := (Refresh.selected logStreamMatcher bound).

Lemma selected_app n l k : selected n (l ++ k) ↔ selected n l ∨ selected n k.
Proof.
  unfold selected. split.
  - intros (item & Hin & ?). apply elem_of_app in Hin as [?|?]; eauto.
  - intros [(item & Hin & ?)|(item & Hin & ?)];
      exists item; (split; [apply elem_of_app; auto | done]).
Qed.

Lemma selected_nil n : ¬ selected n [].
Proof. intros (item & Hin & _). by apply elem_of_nil in Hin. Qed.

Lemma consistent_empty : consistent emptyScan.
Proof.
  split; [constructor|]. intros n. unfold isMatched. simpl.
  rewrite lookup_empty. simpl. split; [done|]. intros H. by apply elem_of_nil in H.
Qed.

Lemma consistent_found s b c :
  consistent s → consistent (mkScan (logStreamNames s) (matched s) b c).
Proof. done. Qed.

(** One candidate. *)
Lemma visit_spec item s :
  consistent s →
  match visit logStreamMatcher bound item s with
  | Go s' =>
      isOld bound item = false ∧ isFresh bound item = true
      ∧ consistent s' ∧ consumed s' = consumed s
      ∧ ∀ n, n ∈ logStreamNames s' ↔
             n ∈ logStreamNames s ∨ selected n [item]
  | BreakLoop s' => isOld bound item = true ∧ s' = s
  | Panic => LastEventTimestamp item = None
  end.
Proof.
  intros [Hnd Hm]. unfold visit, isOld, isFresh, selected.
  destruct (LastEventTimestamp item) as [ts|] eqn:Hts; [|done].
  destruct (bound >? ts) eqn:Hold.
  - assert ((bound <=? ts) = false) as E by lia. rewrite E. done.
  - assert ((bound <=? ts) = true) as E by lia. rewrite E. simpl.
    split; [done|]. split; [done|].
    destruct (logStreamMatcher (LogStreamName item)) eqn:Hmatch; simpl.
    + destruct (isMatched s (LogStreamName item)) eqn:Hseen; simpl.
      * split; [done|]. split; [done|]. intros n. split; [auto|].
        intros [?|(it & Hin & <- & _)]; [done|].
        apply list_elem_of_singleton in Hin as ->. by apply Hm.
      * assert (LogStreamName item ∉ logStreamNames s) as Hnew.
        { intros Hin. apply Hm in Hin. congruence. }
        split; [|split; [done|]].
        -- split; simpl.
           ++ apply NoDup_app. split; [done|]. split; [|apply NoDup_singleton].
              intros x Hx Hx'. apply list_elem_of_singleton in Hx' as ->. done.
           ++ intros n. unfold isMatched. simpl.
              rewrite elem_of_app, list_elem_of_singleton.
              destruct (decide (LogStreamName item = n)) as [<-|Hne].
              ** rewrite lookup_insert_eq. simpl. split; auto.
              ** rewrite lookup_insert_ne by done. fold (isMatched s n).
                 rewrite Hm. split; [auto|]. intros [?|?]; [done|congruence].
        -- intros n. simpl. rewrite elem_of_app, list_elem_of_singleton.
           split.
           ++ intros [?| ->]; [auto|]. right. exists item.
              rewrite list_elem_of_singleton. unfold isFresh. rewrite Hts.
              done.
           ++ intros [?|(it & Hin & <- & _)]; [auto|].
              apply list_elem_of_singleton in Hin as ->. auto.
    + split; [done|]. split; [done|]. intros n. split; [auto|].
      intros [?|(it & Hin & <- & _ & Hmt)]; [done|].
      apply list_elem_of_singleton in Hin as ->. congruence.
Qed.

Lemma reached_app l k :
  reached bound (l ++ k) =
  if existsb (isOld bound) l then reached bound l else l ++ reached bound k.
Proof.
  induction l as [|item l IH]; simpl; [done|].
  destruct (isOld bound item); simpl; [done|]. rewrite IH.
  by destruct (existsb (isOld bound) l).
Qed.

Lemma reached_all l : existsb (isOld bound) l = false → reached bound l = l.
Proof.
  intros H. rewrite <- (app_nil_r l) at 1. rewrite reached_app, H. simpl.
  by rewrite app_nil_r.
Qed.

(** The candidates of one page (line 46). *)
Lemma rangeItems_spec items s :
  consistent s →
  match rangeItems logStreamMatcher bound items s with
  | Go s' =>
      existsb (isOld bound) items = false
      ∧ consistent s' ∧ consumed s' = consumed s
      ∧ ∀ n, n ∈ logStreamNames s' ↔ n ∈ logStreamNames s ∨ selected n items
  | BreakLoop s' =>
      existsb (isOld bound) items = true
      ∧ consistent s' ∧ consumed s' = consumed s
      ∧ ∀ n, n ∈ logStreamNames s' ↔
             n ∈ logStreamNames s ∨ selected n (reached bound items)
  | Panic =>
      ∃ item, item ∈ reached bound items ∧ LastEventTimestamp item = None
  end.
Proof.
  revert s. induction items as [|item items IH]; intros s Hs; simpl.
  - split; [done|]. split; [done|]. split; [done|]. intros n.
    split; [auto|]. intros [?|H]; [done|]. by apply selected_nil in H.
  - pose proof (visit_spec item s Hs) as Hv.
    destruct (visit logStreamMatcher bound item s) as [s1|s1|].
    + destruct Hv as (Hold & _ & Hs1 & Hc & Hn). rewrite Hold. simpl.
      specialize (IH s1 Hs1).
      destruct (rangeItems logStreamMatcher bound items s1) as [s2|s2|].
      * destruct IH as (? & ? & ? & Hn2). split; [done|]. split; [done|].
        split; [congruence|]. intros n.
        rewrite Hn2, Hn, (selected_app n [item] items). tauto.
      * destruct IH as (? & ? & ? & Hn2). split; [done|]. split; [done|].
        split; [congruence|]. intros n.
        rewrite Hn2, Hn, (selected_app n [item] (reached bound items)). tauto.
      * destruct IH as (it & Hin & Hnone). exists it. split; [|done].
        apply elem_of_cons. auto.
    + destruct Hv as (Hold & ->). rewrite Hold. simpl.
      split; [done|]. split; [done|]. split; [done|]. intros n.
      split; [auto|]. intros [?|(it & Hin & _ & Hfresh & _)]; [done|].
      apply list_elem_of_singleton in Hin as ->.
      unfold isOld, isFresh in *. destruct (LastEventTimestamp item); [lia|done].
    + exists item. split; [|done]. apply elem_of_cons. auto.
Qed.

Lemma candidates_cons page ps :
  candidates (page :: ps) = LogStreams page ++ candidates ps.
Proof. done. Qed.

Lemma candidates_app ps qs : candidates (ps ++ qs) = candidates ps ++ candidates qs.
Proof. unfold candidates. by rewrite fmap_app, concat_app. Qed.

(** The pages of one listing (line 44). *)
Lemma pagerLoop_spec ps s :
  consistent s →
  match pagerLoop logStreamMatcher bound ps s with
  | Go s' =>
      existsb (isOld bound) (candidates ps) = false
      ∧ consistent s' ∧ consumed s' = (consumed s + length ps)%nat
      ∧ ∀ n, n ∈ logStreamNames s' ↔
             n ∈ logStreamNames s ∨ selected n (candidates ps)
  | BreakLoop s' =>
      existsb (isOld bound) (candidates ps) = true
      ∧ consistent s' ∧ consumed s' = (consumed s + cutoffPage bound ps)%nat
      ∧ ∀ n, n ∈ logStreamNames s' ↔
             n ∈ logStreamNames s ∨ selected n (reached bound (candidates ps))
  | Panic =>
      ∃ item, item ∈ reached bound (candidates ps) ∧ LastEventTimestamp item = None
  end.
Proof.
  revert s. induction ps as [|page ps IH]; intros s Hs; simpl.
  - split; [done|]. split; [done|]. split; [lia|]. intros n.
    split; [auto|]. intros [?|H]; [done|]. by apply selected_nil in H.
  - rewrite candidates_cons, existsb_app, reached_app.
    set (s1 := mkScan _ _ _ _).
    assert (consistent s1) as Hs1 by done.
    pose proof (rangeItems_spec (LogStreams page) s1 Hs1) as Hr.
    destruct (rangeItems logStreamMatcher bound (LogStreams page) s1) as [s2|s2|].
    + destruct Hr as (Hold & Hs2 & Hc & Hn). rewrite Hold. simpl.
      specialize (IH s2 Hs2).
      destruct (pagerLoop logStreamMatcher bound ps s2) as [s3|s3|].
      * destruct IH as (? & ? & Hc3 & Hn3). split; [done|]. split; [done|].
        split; [rewrite Hc3, Hc; simpl; lia|]. intros n.
        rewrite Hn3, Hn, selected_app. simpl. tauto.
      * destruct IH as (? & ? & Hc3 & Hn3). split; [done|]. split; [done|].
        split; [rewrite Hc3, Hc; simpl; lia|]. intros n.
        rewrite Hn3, Hn, selected_app. simpl. tauto.
      * destruct IH as (it & Hin & Hnone). exists it. split; [|done].
        apply elem_of_app. auto.
    + destruct Hr as (Hold & Hs2 & Hc & Hn). rewrite Hold. simpl.
      split; [done|]. split; [done|]. split; [rewrite Hc; simpl; lia|done].
    + destruct Hr as (it & Hin & Hnone).
      destruct (existsb (isOld bound) (LogStreams page)); [by exists it|].
      exists it. split; [|done]. apply elem_of_app. left.
      revert Hin. clear. induction (LogStreams page) as [|x l IH]; simpl; [done|].
      rewrite !elem_of_cons. destruct (isOld bound x); [|tauto].
      rewrite elem_of_nil. tauto.
Qed.

End Discovery.

Section Scan.

Variable logStreamMatcher : string → bool.

(** With a failed listing and no old candidate the labelled loop never
    leaves: no amount of fuel gives a result. *)
Lemma outerLoop_spins fuel bound s :
  outerLoop logStreamMatcher fuel bound [] true s = None.
Proof.
  revert s. induction fuel as [|fuel IH]; intros s; simpl; [done|apply IH].
Qed.

(** Two rounds are enough: more fuel changes nothing, so [Spins] in
    [scanStreams] stands for a loop that no amount of fuel brings to an
    end. *)
Lemma outerLoop_enough fuel bound ps err s :
  outerLoop logStreamMatcher (S (S fuel)) bound ps err s =
  outerLoop logStreamMatcher 2 bound ps err s.
Proof.
  cbn [outerLoop].
  destruct (pagerLoop logStreamMatcher bound ps _) as [s1|s1|]; try done.
  destruct (negb (found s1) && negb err); [done|].
  cbn [pagerLoop found]. destruct err; cbn [negb andb]; [|done].
  apply outerLoop_spins.
Qed.

Lemma scanStreams_spins it initialStartTime fuel :
  scanStreams logStreamMatcher it initialStartTime = Spins →
  outerLoop logStreamMatcher fuel (wrap64 (initialStartTime - threeHours))
    (pages it) (fails it) emptyScan = None.
Proof.
  unfold scanStreams. intros H.
  destruct fuel as [|[|fuel]]; [done| |].
  - revert H. cbn [outerLoop].
    destruct (pagerLoop logStreamMatcher _ (pages it) _) as [s1|s1|]; try done.
    destruct (negb (found s1) && negb (fails it)); [done|].
    cbn [pagerLoop found]. by destruct (fails it).
  - rewrite outerLoop_enough.
    destruct (outerLoop logStreamMatcher 2 _ (pages it) (fails it) emptyScan)
      as [[s1| |]|] eqn:E; try done.
    exfalso. revert E. cbn [outerLoop].
    destruct (pagerLoop logStreamMatcher _ (pages it) _) as [s2|s2|]; try done.
    destruct (negb (found s2) && negb (fails it)); [done|].
    cbn [pagerLoop found]. by destruct (fails it).
Qed.

(** What a scan that returns has collected, and how far it went. *)
Lemma scanStreams_returns it initialStartTime s :
  scanStreams logStreamMatcher it initialStartTime = Returns s →
  let bound := wrap64 (initialStartTime - threeHours) in
  NoDup (logStreamNames s)
  ∧ consumed s = cutoffPage bound (pages it)
  ∧ ∀ n, n ∈ logStreamNames s ↔
         selected logStreamMatcher bound n (reached bound (candidates (pages it))).
Proof.
  unfold scanStreams. intros H. set (bound := wrap64 (initialStartTime - threeHours)) in *. simpl in H.
  pose proof (pagerLoop_spec logStreamMatcher bound (pages it)
                (mkScan [] ∅ false 0)) as Hp.
  assert (consistent (mkScan [] ∅ false 0)) as H0
    by apply (consistent_empty).
  specialize (Hp H0). simpl in H.
  destruct (pagerLoop logStreamMatcher bound (pages it) _) as [s1|s1|].
  - destruct Hp as (Hold & [Hnd Hm] & Hc & Hn). simpl in Hc, Hn.
    assert (cutoffPage bound (pages it) = length (pages it)) as Hcut.
    { revert Hold. clear. induction (pages it) as [|p ps IH]; simpl; [done|].
      rewrite candidates_cons, existsb_app. intros H.
      apply orb_false_iff in H as [-> H]. by rewrite IH. }
    assert (∀ n, n ∈ logStreamNames s1 ↔
              selected logStreamMatcher bound n (reached bound (candidates (pages it))))
      as Hn'.
    { intros n. rewrite Hn, reached_all by done. split; [|auto].
      intros [Hnil|?]; [|done]. by apply elem_of_nil in Hnil. }
    destruct (negb (found s1) && negb (fails it)).
    + injection H as <-. by rewrite Hcut.
    + destruct (negb (fails it)); simpl in H; [|done].
      injection H as <-. simpl. by rewrite Hcut.
  - injection H as <-. destruct Hp as (Hold & [Hnd Hm] & Hc & Hn).
    simpl in Hc, Hn. split; [done|]. split; [done|]. intros n.
    rewrite Hn. split; [|auto]. intros [Hnil|?]; [|done].
    by apply elem_of_nil in Hnil.
  - done.
Qed.

Lemma fresh_not_old bound item :
  isFresh bound item = true → isOld bound item = false.
Proof. unfold isFresh, isOld. destruct (LastEventTimestamp item); [lia|done]. Qed.

Lemma fresh_no_old bound items :
  Forall (λ item, isFresh bound item = true) items →
  existsb (isOld bound) items = false.
Proof.
  induction 1 as [|item items Hi _ IH]; simpl; [done|].
  by rewrite (fresh_not_old _ _ Hi), IH.
Qed.

Lemma cutoffPage_app bound pre rest :
  existsb (isOld bound) (candidates pre) = false →
  cutoffPage bound (pre ++ rest) = (length pre + cutoffPage bound rest)%nat.
Proof.
  induction pre as [|p pre IH]; simpl; [done|].
  rewrite candidates_cons, existsb_app. intros H.
  apply orb_false_iff in H as [-> H]. by rewrite IH.
Qed.

(** A listing whose first old candidate sits on the page after [pre]:
    the scan returns, having taken that page and none after it. *)
Lemma scanStreams_cutoff pre before old after tok post err initialStartTime :
  let bound := wrap64 (initialStartTime - threeHours) in
  Forall (λ item, isFresh bound item = true) (candidates pre ++ before) →
  isOld bound old = true →
  ∃ s,
    scanStreams logStreamMatcher
      (mkPager (pre ++ DescribeLogStreamsOutput.mk (before ++ old :: after) tok :: post) err)
      initialStartTime = Returns s
    ∧ consumed s = S (length pre)
    ∧ ∀ n, n ∈ logStreamNames s ↔
           selected logStreamMatcher bound n (candidates pre ++ before).
Proof.
  intros bound Hfresh Hold.
  set (page := DescribeLogStreamsOutput.mk (before ++ old :: after) tok).
  set (ps := pre ++ page :: post).
  apply Forall_app in Hfresh as [Hpre Hbefore].
  assert (reached bound (candidates ps) = candidates pre ++ before ++ [old]) as Hreach.
  { unfold ps. rewrite candidates_app, candidates_cons, reached_app.
    rewrite (fresh_no_old _ _ Hpre). f_equal. simpl.
    rewrite <- app_assoc, reached_app, (fresh_no_old _ _ Hbefore).
    f_equal. rewrite reached_app. simpl. by rewrite Hold. }
  assert (existsb (isOld bound) (candidates ps) = true) as Hcut.
  { unfold ps. rewrite candidates_app, candidates_cons. simpl.
    rewrite !existsb_app. simpl. rewrite Hold. by rewrite !orb_true_r. }
  assert (cutoffPage bound ps = S (length pre)) as Hpages.
  { unfold ps. rewrite cutoffPage_app by by apply fresh_no_old. simpl.
    rewrite existsb_app. simpl. rewrite Hold, orb_true_r. lia. }
  pose proof (pagerLoop_spec logStreamMatcher bound ps (mkScan [] ∅ false 0)
                (consistent_empty)) as Hp.
  assert (∃ s, scanStreams logStreamMatcher (mkPager ps err) initialStartTime
               = Returns s) as [s Hs].
  { unfold scanStreams. fold bound. simpl.
    destruct (pagerLoop logStreamMatcher bound ps _) as [s1|s1|].
    - destruct Hp as (Hno & _). congruence.
    - by exists s1.
    - destruct Hp as (item & Hin & Hnone). rewrite Hreach in Hin.
      exfalso. rewrite app_assoc in Hin. apply elem_of_app in Hin as [Hin|Hin].
      + assert (isFresh bound item = true) as Hf.
        { apply elem_of_app in Hin as [Hin|Hin].
          - by apply (proj1 (Forall_forall _ _) Hpre).
          - by apply (proj1 (Forall_forall _ _) Hbefore). }
        unfold isFresh in Hf. by rewrite Hnone in Hf.
      + apply list_elem_of_singleton in Hin as ->.
        unfold isOld in Hold. by rewrite Hnone in Hold. }
  exists s. split; [done|].
  apply scanStreams_returns in Hs as (_ & Hc & Hn). simpl in Hc, Hn.
  fold bound in Hc, Hn. split; [congruence|]. intros n.
  rewrite Hn, Hreach, app_assoc, selected_app. split; [|auto].
  intros [?|(item & Hin & _ & Hf & _)]; [done|].
  apply list_elem_of_singleton in Hin as ->.
  apply fresh_not_old in Hf. congruence.
Qed.

End Scan.

End RefreshFacts.

(** ** Discovery in the second program *)

Module BatchFacts.
Import LogStream DescribeLogStreamsOutput Batch.

Section Discovery.

Variable logStreamMatcher : string → bool.
Variables lo hi : Z.

Local Abbreviation picks := (Batch.picks logStreamMatcher lo hi).

Lemma batch_visit_spec item s :
  visit logStreamMatcher lo hi item s =
  mkScan (logStreamNames s ++ (if picks item then [LogStreamName item] else []))
         (encounteredLaterTimestamp s || isLater hi item) (consumed s).
Proof.
  destruct s as [names enc c]. unfold visit, Batch.picks, inWindow, isLater. simpl.
  destruct (LastEventTimestamp item) as [ts|]; simpl.
  - destruct ((lo <=? ts) && (ts <? hi)) eqn:Hin; simpl.
    + assert ((hi <=? ts) = false) as -> by lia. rewrite orb_false_r.
      destruct (logStreamMatcher (LogStreamName item)); [done|].
      by rewrite app_nil_r.
    + rewrite app_nil_r. destruct (hi <=? ts).
      * by rewrite orb_true_r.
      * by rewrite orb_false_r.
  - by rewrite app_nil_r, orb_false_r.
Qed.

Lemma batch_rangeItems_spec items s :
  rangeItems logStreamMatcher lo hi items s =
  mkScan (logStreamNames s
            ++ (LogStreamName <$> filter (λ item, picks item = true) items))
         (encounteredLaterTimestamp s || existsb (isLater hi) items) (consumed s).
Proof.
  unfold rangeItems. revert s.
  induction items as [|item items IH]; intros s; simpl.
  - destruct s. simpl. by rewrite app_nil_r, orb_false_r.
  - rewrite IH, batch_visit_spec. simpl. rewrite filter_cons, orb_assoc, <- app_assoc.
    destruct (decide (picks item = true)) as [E|E].
    + by rewrite E.
    + apply not_true_is_false in E. by rewrite E.
Qed.

Lemma pagerLoop_stop ps s :
  encounteredLaterTimestamp s = true → pagerLoop logStreamMatcher lo hi ps s = s.
Proof. intros H. destruct ps; simpl; by rewrite H. Qed.

Lemma pagerLoop_nil s : pagerLoop logStreamMatcher lo hi [] s = s.
Proof. simpl. by destruct (encounteredLaterTimestamp s). Qed.

Lemma pagerLoop_cons page ps s :
  encounteredLaterTimestamp s = false →
  pagerLoop logStreamMatcher lo hi (page :: ps) s =
  let s' := rangeItems logStreamMatcher lo hi (LogStreams page)
              (mkScan (logStreamNames s) (encounteredLaterTimestamp s)
                      (S (consumed s))) in
  match NextToken page with
  | None => s'
  | Some _ => pagerLoop logStreamMatcher lo hi ps s'
  end.
Proof. intros H. simpl. by rewrite H. Qed.

(** The scan, page by page. *)
Lemma batch_pagerLoop_spec ps s :
  encounteredLaterTimestamp s = false →
  logStreamNames (pagerLoop logStreamMatcher lo hi ps s) =
    logStreamNames s
      ++ (LogStreamName <$>
            filter (λ item, picks item = true) (candidates (consumedPages hi ps)))
  ∧ consumed (pagerLoop logStreamMatcher lo hi ps s) =
      (consumed s + length (consumedPages hi ps))%nat.
Proof.
  revert s. induction ps as [|page ps IH]; intros s Hs.
  - rewrite pagerLoop_nil. simpl. rewrite app_nil_r. split; [done|lia].
  - rewrite pagerLoop_cons by done. cbv zeta. rewrite batch_rangeItems_spec. simpl.
    rewrite Hs. simpl.
    destruct (existsb (isLater hi) (LogStreams page)) eqn:Hlater.
    + unfold candidates. simpl. rewrite app_nil_r.
      destruct (NextToken page); simpl.
      * rewrite pagerLoop_stop by done. simpl. split; [done|lia].
      * split; [done|lia].
    + destruct (NextToken page); simpl.
      * unfold candidates. simpl. fold (candidates (consumedPages hi ps)).
        match goal with |- context [pagerLoop _ _ _ _ ?s1] =>
          destruct (IH s1 eq_refl) as [Hn Hc] end.
        rewrite Hn, Hc. simpl. rewrite filter_app, fmap_app, app_assoc.
        split; [done|lia].
      * unfold candidates. simpl. rewrite app_nil_r. split; [done|lia].
Qed.

Lemma consumedPages_sub ps item :
  item ∈ candidates (consumedPages hi ps) → item ∈ candidates ps.
Proof.
  induction ps as [|page ps IH]; simpl; [done|].
  unfold candidates. simpl. fold (candidates ps).
  rewrite !elem_of_app. intros [?|Hin]; [auto|]. right.
  destruct (existsb (isLater hi) (LogStreams page)).
  { by apply elem_of_nil in Hin. }
  destruct (NextToken page); [by apply IH|]. by apply elem_of_nil in Hin.
Qed.

End Discovery.

(** What the second program's [getLogStreams] returns: of the candidates on
    the pages it takes, in their order, the names of those it picks. *)
Lemma getLogStreams_spec logStreamMatcher it minEventTime maxEventTime :
  getLogStreams logStreamMatcher it minEventTime maxEventTime =
  LogStreamName <$>
    filter (λ item, picks logStreamMatcher
                      (wrap64 (minEventTime - wrap64 (60 * 60 * 1000 * 3)))
                      maxEventTime item = true)
           (candidates (consumedPages maxEventTime (pages it))).
Proof.
  unfold getLogStreams, scanStreams.
  by destruct (batch_pagerLoop_spec logStreamMatcher
                 (wrap64 (minEventTime - wrap64 (60 * 60 * 1000 * 3)))
                 maxEventTime (pages it) emptyScan eq_refl) as [-> _].
Qed.

End BatchFacts.

(** ** The loop of main.go *)

Module LoopFacts.
Import Refresh.
Import FilteredLogEvent.

Global Instance inOrder_total : Total inOrder.
Proof. intros a b. unfold inOrder, Less. lia. Qed.

Lemma sortMsg_perm output : sortMsg output ≡ₚ output.
Proof. apply merge_sort_Permutation. Qed.

Lemma sortMsg_sorted output : Sorted byIngestion (sortMsg output).
Proof.
  assert (Sorted inOrder (sortMsg output)) as H by apply (Sorted_merge_sort inOrder).
  induction H as [|a l _ IH Hd]; constructor; [done|].
  destruct Hd as [|b l' Hab]; constructor.
  unfold inOrder, Less in Hab. unfold byIngestion. lia.
Qed.

Lemma sortMsg_elem output e : e ∈ sortMsg output ↔ e ∈ output.
Proof. by rewrite sortMsg_perm. Qed.

(** [latest] is the largest timestamp seen, or 0 when none is positive. *)
Lemma latestOf_from output a :
  let latest := foldl (λ latest row,
                         if Timestamp row >? latest then Timestamp row else latest)
                      a output in
  a ≤ latest
  ∧ (∀ e, e ∈ output → Timestamp e ≤ latest)
  ∧ (latest = a ∨ ∃ e, e ∈ output ∧ Timestamp e = latest).
Proof.
  revert a. induction output as [|row output IH]; intros a; simpl.
  - split; [lia|]. split; [|auto]. intros e He. by apply elem_of_nil in He.
  - destruct (IH (if Timestamp row >? a then Timestamp row else a)) as (Hge & Hall & Hin).
    split; [destruct (Timestamp row >? a) eqn:E; lia|].
    split.
    + intros e He. apply elem_of_cons in He as [->|He]; [|by apply Hall].
      destruct (Timestamp row >? a) eqn:E; lia.
    + destruct Hin as [Heq|(e & He & Heq)].
      * destruct (Timestamp row >? a) eqn:E; [|by left].
        right. exists row. split; [apply elem_of_cons; auto|done].
      * right. exists e. split; [apply elem_of_cons; auto|done].
Qed.

Lemma latestOf_spec output :
  0 ≤ latestOf output
  ∧ (∀ e, e ∈ output → Timestamp e ≤ latestOf output)
  ∧ (latestOf output = 0 ∨ ∃ e, e ∈ output ∧ Timestamp e = latestOf output).
Proof. apply (latestOf_from output 0). Qed.

Lemma printedOf_app fx fx' : printedOf (fx ++ fx') = printedOf fx ++ printedOf fx'.
Proof. apply omap_app. Qed.

Lemma printedOf_Printed l : printedOf (Printed <$> l) = l.
Proof. unfold printedOf. induction l as [|x l IH]; [done|]. simpl. by f_equal. Qed.

Lemma sleptOf_app fx fx' : sleptOf (fx ++ fx') = sleptOf fx ++ sleptOf fx'.
Proof. apply omap_app. Qed.

Lemma sleptOf_Printed l : sleptOf (Printed <$> l) = [].
Proof. unfold sleptOf. induction l as [|x l IH]; [done|]. done. Qed.

Section Loop.

Variable logStreamMatcher : string → bool.
Variable logStreamRefresh : bool.
Variable endTimeIsZero : bool.

Local Abbreviation fetch := (fetch logStreamRefresh endTimeIsZero).
Local Abbreviation iteration := (iteration logStreamMatcher logStreamRefresh endTimeIsZero).
Local Abbreviation run := (run logStreamMatcher logStreamRefresh endTimeIsZero).
Local Abbreviation blocks := (blocks logStreamMatcher logStreamRefresh endTimeIsZero).
Local Abbreviation discover := (discover logStreamMatcher).

(** What a cycle prints: the answer, sorted. *)
Lemma fetch_printed st w : printedOf (fetch st w).1 = sortMsg (answer st w).
Proof.
  unfold Refresh.fetch, answer, printedOf.
  repeat case_match; simpl; rewrite ?omap_app; simpl;
    fold (printedOf (Printed <$> sortMsg (concat (pages (filterLogEvents w (request st))))));
    rewrite printedOf_Printed, ?app_nil_r; done.
Qed.

(** The effects of a cycle in full. *)
Lemma fetch_effects st w :
  ∃ tail, (fetch st w).1
          = Requested (request st) :: (Printed <$> sortMsg (answer st w)) ++ tail
          ∧ (tail = [] ∨ tail = [ErrorPaging] ∨ tail = [Slept fiveSeconds]).
Proof.
  unfold Refresh.fetch, answer.
  repeat case_match; simpl;
    first [ by exists []; rewrite app_nil_r; auto
          | by exists [ErrorPaging]; auto
          | by exists [Slept fiveSeconds]; auto ].
Qed.

(** Receiving the signal and discovering streams leave the window alone
    and print nothing. *)
Lemma receive_frame st w :
  startTimeUnix (receive st w).2 = startTimeUnix st
  ∧ endTimeUnix (receive st w).2 = endTimeUnix st
  ∧ LogStreamNames (receive st w).2 = LogStreamNames st
  ∧ printedOf (receive st w).1 = []
  ∧ (∀ input, Requested input ∉ (receive st w).1).
Proof.
  unfold receive. destruct (signal w); simpl; repeat split; try done.
  - intros input H. apply list_elem_of_singleton in H. done.
  - intros input H. by apply elem_of_nil in H.
Qed.

Lemma discover_frame st w fx st1 :
  discover st w = (fx, Returns st1) →
  startTimeUnix st1 = startTimeUnix st
  ∧ endTimeUnix st1 = endTimeUnix st
  ∧ printedOf fx = []
  ∧ sleptOf fx = []
  ∧ (∀ input, Requested input ∉ fx).
Proof.
  unfold Refresh.discover.
  destruct (since (now w) (start st) >? fiveMinutes).
  - destruct (getLogStreams _ _ _); intros [= <- <-]; repeat split; try done.
    intros input H. apply list_elem_of_singleton in H. done.
  - intros [= <- <-]; repeat split; try done.
    intros input H. by apply elem_of_nil in H.
Qed.

(** An iteration, taken apart. *)
Lemma iteration_cases st w :
  (∃ fx1 st1,
      discover (receive st w).2 w = (fx1, Returns st1)
      ∧ iteration st w = ((receive st w).1 ++ fx1 ++ (fetch st1 w).1, (fetch st1 w).2))
  ∨ (printedOf (iteration st w).1 = []
     ∧ (∀ input, Requested input ∉ (iteration st w).1)
     ∧ ((iteration st w).2 = Panicked ∨ (iteration st w).2 = Spinning)).
Proof.
  unfold Refresh.iteration.
  pose proof (receive_frame st w) as (_ & _ & _ & Hp0 & Hr0).
  destruct (receive st w) as [fx0 st0] eqn:Hrecv. simpl in *.
  destruct (Refresh.discover logStreamMatcher st0 w) as [fx1 [st1| |]] eqn:Hd.
  - left. exists fx1, st1. split; [done|].
    by destruct (Refresh.fetch logStreamRefresh endTimeIsZero st1 w).
  - right. simpl. unfold Refresh.discover in Hd.
    destruct (since (now w) (start st0) >? fiveMinutes); [|done].
    injection Hd as <- _. rewrite printedOf_app, Hp0. split; [done|].
    split; [|auto]. intros input H. apply elem_of_app in H as [H|H].
    + by apply Hr0 in H.
    + by apply list_elem_of_singleton in H.
  - right. simpl. unfold Refresh.discover in Hd.
    destruct (since (now w) (start st0) >? fiveMinutes); [|done].
    injection Hd as <- _. rewrite printedOf_app, Hp0. split; [done|].
    split; [|auto]. intros input H. apply elem_of_app in H as [H|H].
    + by apply Hr0 in H.
    + by apply list_elem_of_singleton in H.
Qed.

Lemma answer_nil st w :
  bool_decide (length (answer st w) = 0%nat) = true → answer st w = [].
Proof. intros H. apply bool_decide_eq_true in H. by apply nil_length_inv. Qed.

(** A cycle that goes on never moves the start of the window back, keeps
    its end, and leaves every event of its answer behind the new
    start. *)
Lemma fetch_watermark st w st' :
  honest w → unfailing w → (fetch st w).2 = Loop st' →
  startTimeUnix st ≤ startTimeUnix st'
  ∧ endTimeUnix st' = endTimeUnix st
  ∧ ∀ e, e ∈ answer st w → Timestamp e < startTimeUnix st'.
Proof.
  intros Hh Hu. unfold Refresh.fetch. rewrite (Hu (request st)).
  fold (answer st w).
  destruct (negb endTimeIsZero && (endTimeUnix st <=? latestOf (answer st w)));
    [done|].
  destruct (bool_decide (length (answer st w) = 0%nat)) eqn:Hlen.
  - intros [= <-]. apply answer_nil in Hlen. rewrite Hlen.
    split; [lia|]. split; [done|]. intros e He. by apply elem_of_nil in He.
  - destruct (negb logStreamRefresh); [done|]. intros [= <-]. simpl.
    destruct (latestOf_spec (answer st w)) as (H0 & Hall & Hin).
    assert (∃ e, e ∈ answer st w) as [e0 He0].
    { destruct (answer st w) as [|e0 l]; [done|]. exists e0. apply elem_of_cons. auto. }
    assert (latestOf (answer st w) < maxInt64) as Hmax.
    { destruct Hin as [->|(e & He & <-)]; [done|]. by apply (Hh (request st)). }
    rewrite wrap64_id by (unfold minInt64, maxInt64 in *; lia).
    split; [|split; [done|]].
    + pose proof (Hall e0 He0). pose proof (Hh (request st) e0 He0) as [Hs _].
      simpl in Hs. lia.
    + intros e He. pose proof (Hall e He). lia.
Qed.

Lemma iteration_printed st w :
  printedOf (iteration st w).1 = []
  ∨ ∃ st1, startTimeUnix st1 = startTimeUnix st
           ∧ endTimeUnix st1 = endTimeUnix st
           ∧ printedOf (iteration st w).1 = sortMsg (answer st1 w)
           ∧ (iteration st w).2 = (fetch st1 w).2.
Proof.
  destruct (iteration_cases st w) as [(fx1 & st1 & Hd & ->)|(H & _)]; [|by left].
  right. exists st1. simpl.
  destruct (receive_frame st w) as (Hs0 & He0 & _ & Hp0 & _).
  destruct (discover_frame _ _ _ _ Hd) as (Hs1 & He1 & Hp1 & _).
  split; [congruence|]. split; [congruence|]. split; [|done].
  by rewrite !printedOf_app, Hp0, Hp1, fetch_printed.
Qed.

(** What an iteration prints is in the order of ingestion. *)
Lemma iteration_sorted st w : Sorted byIngestion (printedOf (iteration st w).1).
Proof.
  destruct (iteration_printed st w) as [->|(st1 & _ & _ & -> & _)];
    [constructor|apply sortMsg_sorted].
Qed.

Lemma iteration_nodup st w : distinct w → NoDup (printedOf (iteration st w).1).
Proof.
  intros Hd.
  destruct (iteration_printed st w) as [->|(st1 & _ & _ & -> & _)];
    [constructor|].
  rewrite sortMsg_perm. apply Hd.
Qed.

Lemma iteration_lower st w e :
  honest w → e ∈ printedOf (iteration st w).1 → startTimeUnix st ≤ Timestamp e.
Proof.
  intros Hh.
  destruct (iteration_printed st w) as [->|(st1 & Hs & _ & -> & _)].
  - intros He. by apply elem_of_nil in He.
  - rewrite sortMsg_elem. intros He.
    destruct (Hh (request st1) e He) as [H _]. simpl in H. lia.
Qed.

Lemma iteration_upper st w e :
  bounded w → e ∈ printedOf (iteration st w).1 → Timestamp e ≤ endTimeUnix st.
Proof.
  intros Hb.
  destruct (iteration_printed st w) as [->|(st1 & _ & Hs & -> & _)].
  - intros He. by apply elem_of_nil in He.
  - rewrite sortMsg_elem. intros He.
    pose proof (Hb (request st1) e He) as H. simpl in H. lia.
Qed.

Lemma iteration_end st w st' :
  (iteration st w).2 = Loop st' → endTimeUnix st' = endTimeUnix st.
Proof.
  destruct (iteration_cases st w) as [(fx1 & st1 & Hd & ->)|(_ & _ & [-> | ->])];
    [|done|done].
  simpl. destruct (receive_frame st w) as (_ & He0 & _).
  destruct (discover_frame _ _ _ _ Hd) as (_ & He1 & _).
  unfold Refresh.fetch. repeat case_match; intros [= <-]; simpl; congruence.
Qed.

Lemma iteration_watermark st w st' :
  honest w → unfailing w → (iteration st w).2 = Loop st' →
  startTimeUnix st ≤ startTimeUnix st'
  ∧ ∀ e, e ∈ printedOf (iteration st w).1 → Timestamp e < startTimeUnix st'.
Proof.
  intros Hh Hu.
  destruct (iteration_cases st w) as [(fx1 & st1 & Hd & Hit)|(_ & _ & [-> | ->])];
    [|done|done].
  destruct (receive_frame st w) as (Hs0 & _ & _ & Hp0 & _).
  destruct (discover_frame _ _ _ _ Hd) as (Hs1 & _ & Hp1 & _).
  rewrite Hit. simpl. intros Hnx.
  destruct (fetch_watermark st1 w st' Hh Hu Hnx) as (Hle & _ & Hlt).
  split; [lia|]. intros e.
  rewrite !printedOf_app, Hp0, Hp1, fetch_printed. simpl.
  rewrite sortMsg_elem. apply Hlt.
Qed.

Lemma blocks_cons st w ws :
  blocks st (w :: ws) =
  printedOf (iteration st w).1
    :: match (iteration st w).2 with Loop st' => blocks st' ws | _ => [] end.
Proof.
  unfold Refresh.blocks. simpl.
  destruct (Refresh.iteration _ _ _ st w) as [fx [st'| | |]]; simpl; try done.
  by destruct (Refresh.run _ _ _ st' ws).
Qed.

Lemma run_cons st w ws :
  (run st (w :: ws)).2 =
  match (iteration st w).2 with Loop st' => (run st' ws).2 | stop => stop end.
Proof.
  simpl. destruct (Refresh.iteration _ _ _ st w) as [fx [st'| | |]]; simpl; try done.
  by destruct (Refresh.run _ _ _ st' ws).
Qed.

(** The loop against honest backends whose requests do not fail: blocks
    printed later hold newer events, nothing printed is older than the
    start the loop began with, and everything printed is older than the
    start the loop has reached. *)
Lemma run_watermark ws st :
  Forall honest ws → Forall unfailing ws →
  StronglySorted before (blocks st ws)
  ∧ (∀ b e, b ∈ blocks st ws → e ∈ b → startTimeUnix st ≤ Timestamp e)
  ∧ (∀ st', (run st ws).2 = Loop st' →
       startTimeUnix st ≤ startTimeUnix st'
       ∧ ∀ b e, b ∈ blocks st ws → e ∈ b → Timestamp e < startTimeUnix st').
Proof.
  revert st. induction ws as [|w ws IH]; intros st Hh Hu.
  - split; [constructor|]. split.
    + intros b e Hb. by apply elem_of_nil in Hb.
    + simpl. intros st' [= <-]. split; [lia|]. intros b e Hb.
      by apply elem_of_nil in Hb.
  - apply Forall_cons in Hh as [Hhw Hh]. apply Forall_cons in Hu as [Huw Hu].
    rewrite blocks_cons, run_cons.
    pose proof (λ e, iteration_lower st w e Hhw) as Hlow.
    destruct ((iteration st w).2) as [st1| | |] eqn:Hnx.
    + destruct (iteration_watermark st w st1 Hhw Huw Hnx) as (Hle & Hlt).
      destruct (IH st1 Hh Hu) as (Hss & Hlow1 & Hfin).
      split; [|split].
      * constructor; [done|]. apply Forall_forall. intros b Hb e1 e2 He1 He2.
        pose proof (Hlt e1 He1). pose proof (Hlow1 b e2 Hb He2). lia.
      * intros b e Hb He. apply elem_of_cons in Hb as [->|Hb]; [by apply Hlow|].
        pose proof (Hlow1 b e Hb He). lia.
      * intros st' Hst'. destruct (Hfin st' Hst') as (Hle' & Hlt').
        split; [lia|]. intros b e Hb He.
        apply elem_of_cons in Hb as [->|Hb]; [|by apply (Hlt' b)].
        pose proof (Hlt e He). lia.
    + split; [repeat constructor|]. split; [|done].
      intros b e Hb He. apply list_elem_of_singleton in Hb as ->. by apply Hlow.
    + split; [repeat constructor|]. split; [|done].
      intros b e Hb He. apply list_elem_of_singleton in Hb as ->. by apply Hlow.
    + split; [repeat constructor|]. split; [|done].
      intros b e Hb He. apply list_elem_of_singleton in Hb as ->. by apply Hlow.
Qed.

Lemma blocks_sorted ws st : Forall (Sorted byIngestion) (blocks st ws).
Proof.
  revert st. induction ws as [|w ws IH]; intros st; [constructor|].
  rewrite blocks_cons. constructor; [apply iteration_sorted|].
  destruct ((iteration st w).2); [apply IH|constructor..].
Qed.

Lemma blocks_nodup ws st : Forall distinct ws → Forall NoDup (blocks st ws).
Proof.
  revert st. induction ws as [|w ws IH]; intros st Hd; [constructor|].
  apply Forall_cons in Hd as [Hdw Hd].
  rewrite blocks_cons. constructor; [by apply iteration_nodup|].
  destruct ((iteration st w).2); [by apply IH|constructor..].
Qed.

Lemma blocks_upper ws st :
  Forall bounded ws →
  ∀ b e, b ∈ blocks st ws → e ∈ b → Timestamp e ≤ endTimeUnix st.
Proof.
  revert st. induction ws as [|w ws IH]; intros st Hb b e Hin He.
  - by apply elem_of_nil in Hin.
  - apply Forall_cons in Hb as [Hbw Hb]. rewrite blocks_cons in Hin.
    apply elem_of_cons in Hin as [->|Hin]; [by apply (iteration_upper st w)|].
    destruct ((iteration st w).2) as [st1| | |] eqn:Hnx;
      try by apply elem_of_nil in Hin.
    rewrite <- (iteration_end st w st1 Hnx). by apply (IH st1 Hb b).
Qed.

End Loop.

Section Requests.

Variable logStreamMatcher : string → bool.
Variable logStreamRefresh : bool.
Variable endTimeIsZero : bool.

Local Abbreviation fetch := (fetch logStreamRefresh endTimeIsZero).
Local Abbreviation iteration := (iteration logStreamMatcher logStreamRefresh endTimeIsZero).

Lemma prelude_quiet st w fx1 st1 :
  Refresh.discover logStreamMatcher (receive st w).2 w = (fx1, Returns st1) →
  (ErrorPaging ∉ (receive st w).1 ++ fx1)
  ∧ sleptOf ((receive st w).1 ++ fx1) = [].
Proof.
  unfold receive, Refresh.discover.
  destruct (signal w); simpl;
    (destruct (since _ _ >? fiveMinutes);
     [destruct (getLogStreams _ _ _); intros [= <- <-]|intros [= <- <-]]);
    (split; [|done]); simpl; intros H; absurd_elem H.
Qed.

(** Every request of an iteration carries the window of the state the
    iteration began with. *)
Lemma iteration_request st w input :
  Requested input ∈ (iteration st w).1 →
  FilterLogEventsInput.StartTime input = startTimeUnix st
  ∧ FilterLogEventsInput.EndTime input = endTimeUnix st.
Proof.
  destruct (iteration_cases logStreamMatcher logStreamRefresh endTimeIsZero st w)
    as [(fx1 & st1 & Hd & ->)|(_ & Hno & _)]; [|intros H; by apply Hno in H].
  simpl. destruct (receive_frame st w) as (Hs0 & He0 & _ & _ & Hr0).
  destruct (discover_frame _ _ _ _ _ Hd) as (Hs1 & He1 & _ & _ & Hr1).
  destruct (fetch_effects logStreamRefresh endTimeIsZero st1 w) as (tail & -> & Htail).
  rewrite !elem_of_app, elem_of_cons, elem_of_app.
  intros [H|[H|[H|[H|H]]]].
  - by apply Hr0 in H.
  - by apply Hr1 in H.
  - injection H as ->. simpl. split; congruence.
  - apply list_elem_of_fmap in H as (? & ? & _). done.
  - destruct Htail as [-> | [-> | ->]]; absurd_elem H.
Qed.

End Requests.

(** Blocks in ascending order, each free of repetitions, hold no event
    twice between them. *)
Lemma ascending_nodup (bs : list (list FilteredLogEvent.t)) :
  StronglySorted before bs → Forall NoDup bs → NoDup (concat bs).
Proof.
  induction 1 as [|b bs Hss IH Hall]; intros Hnd; simpl; [constructor|].
  apply Forall_cons in Hnd as [Hb Hnd].
  apply NoDup_app. split; [done|]. split; [|by apply IH].
  intros e He Hin. apply list_elem_of_In, in_concat in Hin as (b' & Hb' & Hin).
  apply list_elem_of_In in Hin. apply list_elem_of_In in Hb'.
  pose proof (proj1 (Forall_forall _ _) Hall b' Hb' e e He Hin). lia.
Qed.

End LoopFacts.

(** ** The example backend *)

Section Store.

Import Refresh.

Variables (sig : bool) (clock : Z) (streams : Pager DescribeLogStreamsOutput.t).
Variable events : list FilteredLogEvent.t.

Lemma store_answer err input e :
  e ∈ concat (pages (store events err input)) →
  e ∈ events
  ∧ FilterLogEventsInput.StartTime input ≤ FilteredLogEvent.Timestamp e
  ∧ FilteredLogEvent.Timestamp e ≤ FilterLogEventsInput.EndTime input.
Proof.
  simpl. rewrite app_nil_r. intros H. apply list_elem_of_filter in H. tauto.
Qed.

Lemma store_honest err :
  Forall (λ e, FilteredLogEvent.Timestamp e < maxInt64) events →
  honest (mkWorld sig clock streams (store events err)).
Proof.
  intros Hall input e He. apply store_answer in He as (Hin & Hlo & _).
  split; [done|]. by apply (proj1 (Forall_forall _ _) Hall).
Qed.

Lemma store_bounded err : bounded (mkWorld sig clock streams (store events err)).
Proof. intros input e He. by apply store_answer in He as (_ & _ & ?). Qed.

Lemma store_distinct err :
  NoDup events → distinct (mkWorld sig clock streams (store events err)).
Proof. intros Hnd input. simpl. rewrite app_nil_r. by apply NoDup_filter. Qed.

Lemma store_unfailing : unfailing (mkWorld sig clock streams (store events false)).
Proof. by intros input. Qed.

End Store.

(** ** Scenarios *)

(** Pattern "bar", two streams with a last event one hour after the
    start: both programs find app/bar-1 only. *)
Example discovery_scenario :
  let t0 := 1530403200000 in
  let hour := 60 * 60 * 1000 in
  let it := mkPager [listing [("app/bar-1", Some (t0 + hour));
                              ("app/baz", Some (t0 + hour))] None] false in
  Refresh.getLogStreams (occursIn "bar") it t0 = Returns ["app/bar-1"]
  ∧ Batch.getLogStreams (occursIn "bar") it t0 (t0 + 24 * hour) = ["app/bar-1"].
Proof. split; reflexivity. Qed.

(** A listing that fails after its only page, with nothing old on it:
    [getLogStreams] of main.go does not come back. *)
Example discovery_spins :
  Refresh.getLogStreams (occursIn "bar")
    (mkPager [listing [("app/bar-1", Some 20000000)] (Some "t")] true) 20000000
  = Spins.
Proof. reflexivity. Qed.

(** Two cycles against a backend that holds events at 100, 105 and 110:
    the second cycle starts at 106, and 105 is printed once. *)
Example overlap_scenario :
  let w1 := Refresh.mkWorld false 0 (mkPager [] false)
              (store [event "a" 100 1; event "b" 105 2] false) in
  let w2 := Refresh.mkWorld false 0 (mkPager [] false)
              (store [event "a" 100 1; event "b" 105 2; event "c" 110 3] false) in
  Refresh.blocks (λ _, true) true true
    (Refresh.mkState 0 1000 [] Refresh.zeroTime) [w1; w2]
  = [[event "a" 100 1; event "b" 105 2]; [event "c" 110 3]].
Proof. reflexivity. Qed.

(** * Stream discovery: the claims *)

Section DiscoveryClaims.

Import LogStream DescribeLogStreamsOutput.

(** C3 (amended).  Neither [getLogStreams] returns a name it has not taken
    from a candidate whose last event is at or after the start minus three
    hours.  [getLogStreams] of main.go stops at the first candidate older
    than that: when the candidates before it all have a last event at or
    after the bound, the scan returns, has taken the page that carries the
    old candidate and no page after it, and has collected names only
    from the candidates in front of it.  The second program's scan is not
    stopped by an old candidate: it takes the pages up to and including
    the first that carries a candidate at or after the end of the window,
    or no token. *)
Theorem lookback_cutoff (logStreamMatcher : string → bool) :
  (∀ it initialStartTime names n,
     Refresh.getLogStreams logStreamMatcher it initialStartTime = Returns names →
     n ∈ names →
     ∃ item, item ∈ Refresh.candidates (pages it) ∧ LogStreamName item = n
             ∧ Refresh.isFresh (wrap64 (initialStartTime - threeHours)) item = true)
  ∧ (∀ pre before old after tok post err initialStartTime,
       Forall (λ item, Refresh.isFresh (wrap64 (initialStartTime - threeHours)) item = true)
              (Refresh.candidates pre ++ before) →
       Refresh.isOld (wrap64 (initialStartTime - threeHours)) old = true →
       ∃ s, Refresh.scanStreams logStreamMatcher
              (mkPager (pre ++ DescribeLogStreamsOutput.mk (before ++ old :: after) tok :: post) err)
              initialStartTime = Returns s
            ∧ Refresh.consumed s = S (length pre)
            ∧ ∀ n, n ∈ Refresh.logStreamNames s ↔
                   Refresh.selected logStreamMatcher
                     (wrap64 (initialStartTime - threeHours)) n
                     (Refresh.candidates pre ++ before))
  ∧ (∀ it minEventTime maxEventTime n,
       n ∈ Batch.getLogStreams logStreamMatcher it minEventTime maxEventTime →
       ∃ item ts, item ∈ Batch.candidates (pages it) ∧ LogStreamName item = n
                  ∧ LastEventTimestamp item = Some ts
                  ∧ wrap64 (minEventTime - wrap64 (60 * 60 * 1000 * 3)) ≤ ts)
  ∧ (∀ it minEventTime maxEventTime,
       Batch.consumed (Batch.scanStreams logStreamMatcher it minEventTime maxEventTime)
       = length (Batch.consumedPages maxEventTime (pages it))).
Proof.
  split; [|split; [|split]].
  - intros it start names n Hret Hn. unfold Refresh.getLogStreams in Hret.
    destruct (Refresh.scanStreams logStreamMatcher it start) as [s| |] eqn:Hs;
      [|done|done].
    injection Hret as <-.
    apply RefreshFacts.scanStreams_returns in Hs as (_ & _ & Hsel).
    apply Hsel in Hn as (item & Hin & Hname & Hfresh & _).
    exists item. split; [|done].
    revert Hin. generalize (Refresh.candidates (pages it)). clear.
    induction l as [|x l IH]; simpl; [done|]. rewrite !elem_of_cons.
    intros [?|Hin]; [auto|]. destruct (Refresh.isOld _ x); [by apply elem_of_nil in Hin|].
    auto.
  - intros pre before old after tok post err start Hfresh Hold.
    by apply (RefreshFacts.scanStreams_cutoff logStreamMatcher pre before old after
                tok post err start).
  - intros it lo hi n Hn. rewrite BatchFacts.getLogStreams_spec in Hn.
    apply list_elem_of_fmap in Hn as (item & -> & Hin).
    apply list_elem_of_filter in Hin as [Hpick Hin].
    apply BatchFacts.consumedPages_sub in Hin.
    unfold Batch.picks, Batch.inWindow in Hpick.
    destruct (LastEventTimestamp item) as [ts|] eqn:Hts; [|done].
    exists item, ts. split; [done|]. split; [done|]. split; [done|]. lia.
  - intros it lo hi. unfold Batch.scanStreams.
    by destruct (BatchFacts.batch_pagerLoop_spec logStreamMatcher
                   (wrap64 (lo - wrap64 (60 * 60 * 1000 * 3))) hi (pages it)
                   Batch.emptyScan eq_refl) as [_ ->].
Qed.

Lemma lookback_cutoff_witness :
  (∃ item, item ∈ Refresh.candidates [listing [("app/bar-1", Some 20000000)] None]
           ∧ LogStreamName item = "app/bar-1"
           ∧ Refresh.isFresh (wrap64 (20000000 - threeHours)) item = true)
  ∧ (∃ s, Refresh.scanStreams (occursIn "bar")
            (mkPager ([listing [("app/bar-1", Some 20000000)] (Some "t")]
                      ++ DescribeLogStreamsOutput.mk
                           ([LogStream.mk "bar-2" (Some 9200000)]
                            ++ LogStream.mk "bar-3" (Some 9199999)
                            :: [LogStream.mk "bar-4" None]) (Some "u")
                      :: [listing [("bar-5", None)] None]) true)
            20000000 = Returns s
          ∧ Refresh.consumed s = 2%nat
          ∧ ∀ n, n ∈ Refresh.logStreamNames s ↔
                 Refresh.selected (occursIn "bar") (wrap64 (20000000 - threeHours)) n
                   (Refresh.candidates [listing [("app/bar-1", Some 20000000)] (Some "t")]
                    ++ [LogStream.mk "bar-2" (Some 9200000)]))
  ∧ (∃ item ts, item ∈ Batch.candidates [listing [("app/bar-1", Some 20000000)] None]
                ∧ LogStreamName item = "app/bar-1"
                ∧ LastEventTimestamp item = Some ts
                ∧ wrap64 (20000000 - wrap64 (60 * 60 * 1000 * 3)) ≤ ts).
Proof.
  destruct (lookback_cutoff (occursIn "bar")) as (H1 & H2 & H3 & _).
  split; [|split].
  - apply (H1 (mkPager [listing [("app/bar-1", Some 20000000)] None] false)
              20000000 ["app/bar-1"]); [reflexivity|].
    apply list_elem_of_singleton. reflexivity.
  - apply H2; [|reflexivity]. repeat constructor.
  - apply (H3 (mkPager [listing [("app/bar-1", Some 20000000)] None] false)
              20000000 30000000).
    apply list_elem_of_singleton. reflexivity.
Defined.

(** C3, as stated, fails on the second program: the first candidate is
    older than the start minus three hours, and the scan goes on to the
    second page and takes a name from it. *)
Lemma lookback_cutoff_counterexample :
  let it := mkPager [listing [("old", Some 0)] (Some "t");
                     listing [("new", Some 20000000)] None] false in
  let s := Batch.scanStreams (λ _, true) it 20000000 30000000 in
  0 < 20000000 - threeHours
  ∧ Batch.consumed s = 2%nat
  ∧ Batch.logStreamNames s = ["new"].
Proof. vm_compute. repeat split. Qed.

(** C7 (amended).  [getLogStreams] of main.go, when it returns, returns
    each name at most once, and a name is in the result exactly when one
    of the candidates up to the first old one bears it, has its last event
    at or after the start minus three hours, and matches; there is no
    upper bound on the last event.  The second program returns, in their
    order and with repetitions, the names of the candidates on the pages
    it takes whose last event lies in the window from the start minus
    three hours to the end, the end excluded, and whose name matches. *)
Theorem discovery_selection (logStreamMatcher : string → bool) :
  (∀ it initialStartTime names,
     Refresh.getLogStreams logStreamMatcher it initialStartTime = Returns names →
     NoDup names
     ∧ ∀ n, n ∈ names ↔
            Refresh.selected logStreamMatcher (wrap64 (initialStartTime - threeHours)) n
              (Refresh.reached (wrap64 (initialStartTime - threeHours))
                 (Refresh.candidates (pages it))))
  ∧ (∀ it minEventTime maxEventTime,
       Batch.getLogStreams logStreamMatcher it minEventTime maxEventTime =
       LogStreamName <$>
         filter (λ item, Batch.picks logStreamMatcher
                           (wrap64 (minEventTime - wrap64 (60 * 60 * 1000 * 3)))
                           maxEventTime item = true)
                (Batch.candidates (Batch.consumedPages maxEventTime (pages it)))).
Proof.
  split.
  - intros it start names Hret. unfold Refresh.getLogStreams in Hret.
    destruct (Refresh.scanStreams logStreamMatcher it start) as [s| |] eqn:Hs;
      [|done|done].
    injection Hret as <-.
    by apply RefreshFacts.scanStreams_returns in Hs as (? & _ & ?).
  - intros. apply BatchFacts.getLogStreams_spec.
Qed.

Lemma discovery_selection_witness :
  NoDup ["app/bar-1"]
  ∧ ∀ n, n ∈ ["app/bar-1"] ↔
         Refresh.selected (occursIn "bar") (wrap64 (20000000 - threeHours)) n
           (Refresh.reached (wrap64 (20000000 - threeHours))
              (Refresh.candidates
                 [listing [("app/bar-1", Some 20000000); ("app/baz", Some 20000000);
                           ("app/bar-1", Some 19000000)] None])).
Proof.
  apply (proj1 (discovery_selection (occursIn "bar"))
           (mkPager [listing [("app/bar-1", Some 20000000); ("app/baz", Some 20000000);
                              ("app/bar-1", Some 19000000)] None] false)
           20000000 ["app/bar-1"]).
  reflexivity.
Defined.

(** C7, as stated, fails on both programs.  main.go, with a window that
    ends at 1000, subscribes to a stream whose last event is at 5000; the
    second program returns a name twice. *)
Lemma discovery_selection_counterexample :
  (let w := Refresh.mkWorld false 0
              (mkPager [listing [("late", Some 5000)] None] false)
              (λ _, mkPager [] false) in
   (Refresh.discover (λ _, true) (Refresh.mkState 0 1000 [] Refresh.zeroTime) w).2
   = Returns (Refresh.mkState 0 1000 ["late"] 0)
   ∧ ¬ 5000 < 1000)
  ∧ (Batch.getLogStreams (λ _, true)
       (mkPager [listing [("a", Some 5); ("a", Some 6)] None] false) 0 1000
     = ["a"; "a"]
     ∧ ¬ NoDup ["a"; "a"]).
Proof.
  split; split.
  - reflexivity.
  - lia.
  - reflexivity.
  - intros H. apply NoDup_cons in H as [H _]. apply H, list_elem_of_singleton.
    reflexivity.
Qed.

(** C8 (the code at fault is [getLogStreams] of main.go).  A candidate
    without a last event: main.go dereferences the nil timestamp and
    panics, whatever the matcher, the start and the rest of the listing;
    the second program passes over the candidate and leaves its variables
    as they were. *)
Theorem missing_timestamp (logStreamMatcher : string → bool)
    (name : string) (rest : list LogStream.t) (tok : option string)
    (more : list DescribeLogStreamsOutput.t) (err : bool)
    (initialStartTime lo hi : Z) (s : Batch.Scan) :
  Refresh.getLogStreams logStreamMatcher
    (mkPager (DescribeLogStreamsOutput.mk (LogStream.mk name None :: rest) tok :: more) err)
    initialStartTime = Panics
  ∧ Batch.visit logStreamMatcher lo hi (LogStream.mk name None) s = s.
Proof. split; reflexivity. Qed.

End DiscoveryClaims.

(** ** The loop of the second program *)

Module BatchLoopFacts.
Import Batch.

Section Loop.

Variable logStreamMatcher : string → bool.
Variables logStreamRefresh live : bool.
Variable initialStartTimeUnix : Z.

Local Abbreviation iteration :=
  (iteration logStreamMatcher logStreamRefresh live initialStartTimeUnix).


(** A failed request ends the loop. *)
Lemma iteration_error fuel st w bs :
  batches (streamNames st) = Some (Returns bs) →
  (fetchBatches bs st w).2 = true →
  ∃ fx, iteration fuel st w = Some (fx, Done).
Proof.
  unfold Batch.iteration. intros -> Herr.
  destruct (fetchBatches bs st w) as [fx err]. simpl in Herr. subst err. simpl.
  destruct ((0 <? Z.of_nat (length (streamNames st))) || live); eauto.
Qed.

End Loop.

(** For every plausible end, the loop of line 389 runs once and multiplies
    the end by a thousand. *)
Lemma waitForEnd_scales fuel endTimeUnix :
  61 ≤ endTimeUnix ≤ 9 * 10 ^ 15 →
  waitForEnd (S fuel) (wrap64 (endTimeUnix + 1000)) endTimeUnix
  = Some ([Slept oneSecond], endTimeUnix * 1000 - 59000).
Proof.
  intros H. assert (10 ^ 15 = 1000000000000000) as E by reflexivity.
  assert (timeOffset = -60000) as Hoff by reflexivity.
  rewrite (wrap64_id (endTimeUnix + 1000)) by (unfold minInt64, maxInt64; lia).
  simpl waitForEnd.
  assert ((endTimeUnix <=? endTimeUnix + 1000) = true) as -> by lia.
  rewrite (wrap64_id (endTimeUnix * 1000)) by (unfold minInt64, maxInt64; lia).
  rewrite Hoff.
  rewrite (wrap64_id (endTimeUnix * 1000 + -60000)) by (unfold minInt64, maxInt64; lia).
  rewrite (wrap64_id (endTimeUnix * 1000 + -60000 + 1000))
    by (unfold minInt64, maxInt64; lia).
  assert ((endTimeUnix * 1000 + -60000 + 1000 <=? endTimeUnix + 1000) = false) as E'
    by lia.
  destruct fuel; simpl; rewrite E'; do 2 f_equal; lia.
Qed.

(** *** Batches *)

Lemma endOfRange_bounds len k :
  0 ≤ k → 100 * k < len →
  100 * k ≤ endOfRange len (100 * k) ≤ len
  ∧ endOfRange len (100 * k) - 100 * k ≤ 99.
Proof.
  intros Hk Hlt. unfold endOfRange.
  destruct (len - 1 <? 100 * k + 99) eqn:E.
  - rewrite Z.rem_mod_nonneg by lia.
    assert (len `mod` 100 = len - 100 * k) as ->; [|lia].
    symmetry. apply (Z.mod_unique_pos len 100 k); lia.
  - lia.
Qed.

(** The loop of line 364 ends without a panic, and no batch has more than
    99 names. *)
Lemma batchesFrom_returns logStreamNames fuel k :
  0 ≤ k →
  Z.of_nat (length logStreamNames) - 100 * k ≤ 100 * Z.of_nat fuel →
  ∃ bs, batchesFrom fuel logStreamNames (100 * k) = Some (Returns bs)
        ∧ Forall (λ b, (length b ≤ 99)%nat) bs.
Proof.
  revert k. induction fuel as [|fuel IH]; intros k Hk Hfuel.
  - simpl. assert ((100 * k <? Z.of_nat (length logStreamNames)) = false) as -> by lia.
    exists []. by split.
  - cbn [batchesFrom].
    destruct (100 * k <? Z.of_nat (length logStreamNames)) eqn:Hlt;
      [|exists []; by split].
    destruct (endOfRange_bounds (Z.of_nat (length logStreamNames)) k Hk) as (Hb & Hle);
      [lia|].
    unfold slice.
    assert ((0 <=? 100 * k)
            && (100 * k <=? endOfRange (Z.of_nat (length logStreamNames)) (100 * k))
            && (endOfRange (Z.of_nat (length logStreamNames)) (100 * k)
                <=? Z.of_nat (length logStreamNames)) = true) as ->.
    { rewrite !andb_true_iff. lia. }
    replace (100 * k + 100) with (100 * (k + 1)) by lia.
    destruct (IH (k + 1)) as (bs & -> & Hall); [lia|lia|].
    eexists. split; [done|]. constructor; [|done].
    rewrite length_take. lia.
Qed.

Lemma batches_returns logStreamNames :
  ∃ bs, batches logStreamNames = Some (Returns bs)
        ∧ Forall (λ b, (length b ≤ 99)%nat) bs.
Proof.
  unfold batches.
  apply (batchesFrom_returns logStreamNames (length logStreamNames) 0); lia.
Qed.

End BatchLoopFacts.

(** * The polling loop: the claims *)

Section LoopClaims.

Import Refresh.

(** C1 (amended).  main.go prints the events of one cycle in the order of
    their ingestion time, not of their timestamp.  Across cycles whose
    requests do not fail, against a backend that returns no event from
    before the requested start, every event printed in a later cycle has a
    larger timestamp than every event printed in an earlier one; so, when
    no single answer carries an event twice, no event is printed twice. *)
Theorem emission_order (logStreamMatcher : string → bool)
    (logStreamRefresh endTimeIsZero : bool) (st : State) (ws : list World) :
  Forall honest ws → Forall unfailing ws →
  Forall (Sorted byIngestion) (blocks logStreamMatcher logStreamRefresh endTimeIsZero st ws)
  ∧ StronglySorted before (blocks logStreamMatcher logStreamRefresh endTimeIsZero st ws)
  ∧ (Forall distinct ws →
     NoDup (concat (blocks logStreamMatcher logStreamRefresh endTimeIsZero st ws))).
Proof.
  intros Hh Hu.
  destruct (LoopFacts.run_watermark logStreamMatcher logStreamRefresh endTimeIsZero
              ws st Hh Hu) as (Hss & _).
  split; [apply LoopFacts.blocks_sorted|]. split; [done|].
  intros Hd. apply LoopFacts.ascending_nodup; [done|].
  by apply LoopFacts.blocks_nodup.
Qed.

Lemma emission_order_witness :
  let w1 := mkWorld false 0 (mkPager [] false)
              (store [event "a" 5 2; event "b" 3 1] false) in
  let w2 := mkWorld false 0 (mkPager [] false)
              (store [event "a" 5 2; event "b" 3 1; event "c" 9 3] false) in
  let bs := blocks (λ _, true) true true (mkState 0 1000 [] zeroTime) [w1; w2] in
  bs = [[event "b" 3 1; event "a" 5 2]; [event "c" 9 3]]
  ∧ Forall (Sorted byIngestion) bs
  ∧ StronglySorted before bs
  ∧ NoDup (concat bs).
Proof.
  intros w1 w2 bs. split; [reflexivity|].
  assert (Forall honest [w1; w2]) as Hh.
  { repeat apply Forall_cons_2; try apply Forall_nil_2;
      apply store_honest; repeat constructor. }
  assert (Forall unfailing [w1; w2]) as Hu.
  { repeat apply Forall_cons_2; try apply Forall_nil_2; apply store_unfailing. }
  assert (Forall distinct [w1; w2]) as Hd.
  { repeat apply Forall_cons_2; try apply Forall_nil_2;
      apply store_distinct; apply (bool_decide_unpack _); vm_compute; exact I. }
  destruct (emission_order (λ _, true) true true (mkState 0 1000 [] zeroTime)
              [w1; w2] Hh Hu) as (H1 & H2 & H3).
  split; [exact H1|]. split; [exact H2|]. exact (H3 Hd).
Defined.

(** C1, as stated, fails on main.go.  One cycle prints timestamps 5 then
    3, the order of ingestion.  A cycle whose paging fails after the first
    page has printed that page; the next cycle asks for the same window
    and prints the same event again. *)
Lemma emission_order_counterexample :
  let st := mkState 0 1000 [] zeroTime in
  let w := mkWorld false 0 (mkPager [] false)
             (store [event "a" 5 1; event "b" 3 2] false) in
  let w' := mkWorld false 0 (mkPager [] false) (store [event "a" 5 1] true) in
  FilteredLogEvent.Timestamp <$> concat (blocks (λ _, true) true false st [w]) = [5; 3]
  ∧ concat (blocks (λ _, true) true false st [w'; w'])
    = [event "a" 5 1; event "a" 5 1].
Proof. split; reflexivity. Qed.




(** C5 (amended).  In main.go a paging error does not end the loop: the
    iteration goes on to the next with the start and the end of the window
    as they were, and every request of the next iteration carries that
    same window.  In the second program a failed request ends the loop. *)
Theorem paging_error_retry (logStreamMatcher : string → bool) :
  (∀ logStreamRefresh endTimeIsZero st w fx1 st1,
     discover logStreamMatcher (receive st w).2 w = (fx1, Returns st1) →
     fails (filterLogEvents w (request st1)) = true →
     ∃ fx, iteration logStreamMatcher logStreamRefresh endTimeIsZero st w
           = (fx, Loop st1)
           ∧ ErrorPaging ∈ fx
           ∧ startTimeUnix st1 = startTimeUnix st
           ∧ endTimeUnix st1 = endTimeUnix st
           ∧ ∀ w' input,
               Requested input
                 ∈ (iteration logStreamMatcher logStreamRefresh endTimeIsZero st1 w').1 →
               FilterLogEventsInput.StartTime input = startTimeUnix st
               ∧ FilterLogEventsInput.EndTime input = endTimeUnix st)
  ∧ (∀ logStreamRefresh live initialStartTimeUnix fuel st w bs,
       Batch.batches (Batch.streamNames st) = Some (Returns bs) →
       (Batch.fetchBatches bs st w).2 = true →
       ∃ fx, Batch.iteration logStreamMatcher logStreamRefresh live
               initialStartTimeUnix fuel st w = Some (fx, Batch.Done)).
Proof.
  split.
  - intros refresh isZero st w fx1 st1 Hd Hfail.
    destruct (LoopFacts.receive_frame st w) as (Hs0 & He0 & _).
    destruct (LoopFacts.discover_frame _ _ _ _ _ Hd) as (Hs1 & He1 & _).
    assert (startTimeUnix st1 = startTimeUnix st) as Hs by congruence.
    assert (endTimeUnix st1 = endTimeUnix st) as He by congruence.
    unfold iteration. destruct (receive st w) as [fx0 st0]. simpl in Hd.
    rewrite Hd. unfold fetch. rewrite Hfail.
    exists (fx0 ++ fx1 ++ (Requested (request st1) :: (Printed <$> sortMsg (answer st1 w)))
              ++ [ErrorPaging]).
    split; [done|]. split; [|split; [done|split; [done|]]].
    + rewrite !elem_of_app, list_elem_of_singleton. auto.
    + intros w' input Hin.
      apply LoopFacts.iteration_request in Hin as [? ?]. split; congruence.
  - intros refresh live init fuel st w bs Hbs Herr.
    by apply (BatchLoopFacts.iteration_error logStreamMatcher refresh live init
                fuel st w bs).
Qed.

Lemma paging_error_retry_witness :
  (let st := mkState 0 1000 [] zeroTime in
   let w := mkWorld false 0 (mkPager [] false) (store [event "a" 100 1] true) in
   ∃ fx, iteration (λ _, true) true false st w = (fx, Loop (mkState 0 1000 [] 0))
         ∧ ErrorPaging ∈ fx
         ∧ startTimeUnix (mkState 0 1000 [] 0) = startTimeUnix st
         ∧ endTimeUnix (mkState 0 1000 [] 0) = endTimeUnix st
         ∧ ∀ w' input,
             Requested input ∈ (iteration (λ _, true) true false
                                  (mkState 0 1000 [] 0) w').1 →
             FilterLogEventsInput.StartTime input = startTimeUnix st
             ∧ FilterLogEventsInput.EndTime input = endTimeUnix st)
  ∧ (∃ fx, Batch.iteration (λ _, true) true true 0 1
             (Batch.mkState 0 1000 ["s"])
             (Batch.mkWorld (mkPager [] false) (store [] true))
           = Some (fx, Batch.Done)).
Proof.
  destruct (paging_error_retry (λ _, true)) as [H1 H2]. split.
  - intros st w.
    apply (H1 true false st w [Discovering] (mkState 0 1000 [] 0)); reflexivity.
  - apply (H2 true true 0 1%nat (Batch.mkState 0 1000 ["s"])
              (Batch.mkWorld (mkPager [] false) (store [] true)) [["s"]]);
      reflexivity.
Defined.

(** C5, as stated, fails on both programs.  main.go goes on to the next
    iteration at once: the iteration with the paging error sleeps at no
    point.  The second program leaves its loop, and with it the
    process. *)
Lemma paging_error_retry_counterexample :
  (let st := mkState 0 1000 [] zeroTime in
   let w := mkWorld false 0 (mkPager [] false) (store [event "a" 100 1] true) in
   let fx := (iteration (λ _, true) true false st w).1 in
   fx = [Discovering;
         Requested (FilterLogEventsInput.mk [] 0 1000);
         Printed (event "a" 100 1);
         ErrorPaging]
   ∧ sleptOf fx = [])
  ∧ Batch.iteration (λ _, true) true true 0 1
      (Batch.mkState 0 1000 ["s"])
      (Batch.mkWorld (mkPager [] false) (store [event "a" 100 1] true))
    = Some ([Batch.Printed (event "a" 100 1)], Batch.Done).
Proof. repeat split; reflexivity. Qed.

(** C6 (amended).  In main.go with an end time, an iteration whose paging
    does not fail and which receives an event with a timestamp at or after
    the end is the last: main returns when the iteration is over, the
    events of the iteration printed.  What is printed is what the backend
    returns: against a backend that returns no event from after the
    requested end, no printed event has a timestamp greater than the end. *)
Theorem historical_range (logStreamMatcher : string → bool) (logStreamRefresh : bool) :
  (∀ st w fx1 st1 e,
     discover logStreamMatcher (receive st w).2 w = (fx1, Returns st1) →
     fails (filterLogEvents w (request st1)) = false →
     e ∈ answer st1 w →
     endTimeUnix st ≤ FilteredLogEvent.Timestamp e →
     (iteration logStreamMatcher logStreamRefresh false st w).2 = Done
     ∧ printedOf (iteration logStreamMatcher logStreamRefresh false st w).1
       ≡ₚ answer st1 w)
  ∧ (∀ endTimeIsZero st ws b e,
       Forall bounded ws →
       b ∈ blocks logStreamMatcher logStreamRefresh endTimeIsZero st ws →
       e ∈ b →
       FilteredLogEvent.Timestamp e ≤ endTimeUnix st).
Proof.
  split.
  - intros st w fx1 st1 e Hd Hfail He Hend.
    destruct (LoopFacts.receive_frame st w) as (_ & He0 & _ & Hp0 & _).
    destruct (LoopFacts.discover_frame _ _ _ _ _ Hd) as (_ & He1 & Hp1 & _).
    destruct (LoopFacts.latestOf_spec (answer st1 w)) as (_ & Hall & _).
    pose proof (Hall e He) as Hle.
    assert (iteration logStreamMatcher logStreamRefresh false st w
            = ((receive st w).1 ++ fx1 ++ (fetch logStreamRefresh false st1 w).1,
               (fetch logStreamRefresh false st1 w).2)) as ->.
    { unfold iteration. destruct (receive st w) as [fx0 st0]. simpl in Hd.
      rewrite Hd. by destruct (fetch logStreamRefresh false st1 w). }
    cbn [fst snd]. split.
    + unfold fetch. fold (answer st1 w). rewrite Hfail. cbn [negb andb].
      assert ((endTimeUnix st1 <=? latestOf (answer st1 w)) = true) as E by lia.
      by rewrite E.
    + rewrite !LoopFacts.printedOf_app, Hp0, Hp1, LoopFacts.fetch_printed.
      apply LoopFacts.sortMsg_perm.
  - intros isZero st ws b e Hb Hin He.
    by apply (LoopFacts.blocks_upper logStreamMatcher logStreamRefresh isZero ws st Hb b).
Qed.

Lemma historical_range_witness :
  (let st := mkState 0 100 [] zeroTime in
   let w := mkWorld false 0 (mkPager [] false)
              (store [event "a" 100 1; event "b" 101 2] false) in
   (iteration (λ _, true) true false st w).2 = Done
   ∧ printedOf (iteration (λ _, true) true false st w).1
     ≡ₚ answer (mkState 0 100 [] 0) w)
  ∧ FilteredLogEvent.Timestamp (event "a" 100 1)
    ≤ endTimeUnix (mkState 0 100 [] zeroTime).
Proof.
  destruct (historical_range (λ _, true) true) as [H1 H2]. split.
  - intros st w.
    apply (H1 st w [Discovering] (mkState 0 100 [] 0) (event "a" 100 1)).
    + reflexivity.
    + reflexivity.
    + apply list_elem_of_singleton. reflexivity.
    + simpl. lia.
  - apply (H2 false (mkState 0 100 [] zeroTime)
              [mkWorld false 0 (mkPager [] false)
                 (store [event "a" 100 1; event "b" 101 2] false)]
              [event "a" 100 1]).
    + apply Forall_cons_2; [apply store_bounded|apply Forall_nil_2].
    + apply list_elem_of_singleton. reflexivity.
    + apply list_elem_of_singleton. reflexivity.
Defined.

(** C6, as stated, fails on main.go: with the end at 100, the event with
    timestamp 100, which the backend returns for a range that includes its
    end, is printed; it is this event that ends the loop. *)
Lemma historical_range_counterexample :
  let st := mkState 0 100 [] zeroTime in
  let w := mkWorld false 0 (mkPager [] false)
             (store [event "a" 100 1; event "b" 101 2] false) in
  printedOf (iteration (λ _, true) true false st w).1 = [event "a" 100 1]
  ∧ endTimeUnix st ≤ FilteredLogEvent.Timestamp (event "a" 100 1)
  ∧ (iteration (λ _, true) true false st w).2 = Done.
Proof. split; [reflexivity|split; [simpl; lia|reflexivity]]. Qed.

(** C9 (amended).  Receiving the restart signal changes only [start], the
    time of the last discovery: the start and the end of the window and
    the stream names are as they were.  The iteration that receives it
    discovers streams whatever [start] was: its request carries the
    window the iteration began with and the stream names [getLogStreams]
    has just returned for the start of that window, and if the loop goes
    on, these names and the current time as time of the last discovery
    are what it goes on with.  After a run of cycles none of whose
    requests failed, against a backend that returns no event from before
    the requested start, such an iteration prints no event that the run
    has printed. *)
Theorem restart_signal (logStreamMatcher : string → bool)
    (logStreamRefresh endTimeIsZero : bool) (st : State) (w : World) :
  signal w = true →
  zeroTime + fiveMinutes < now w →
  (receive st w).2
    = mkState (startTimeUnix st) (endTimeUnix st) (LogStreamNames st) zeroTime
  ∧ Discovering ∈ (iteration logStreamMatcher logStreamRefresh endTimeIsZero st w).1
  ∧ (∀ input,
       Requested input
         ∈ (iteration logStreamMatcher logStreamRefresh endTimeIsZero st w).1 →
       FilterLogEventsInput.StartTime input = startTimeUnix st
       ∧ FilterLogEventsInput.EndTime input = endTimeUnix st
       ∧ getLogStreams logStreamMatcher (describeLogStreams w) (startTimeUnix st)
         = Returns (FilterLogEventsInput.LogStreamNames input))
  ∧ (∀ st',
       (iteration logStreamMatcher logStreamRefresh endTimeIsZero st w).2 = Loop st' →
       start st' = now w
       ∧ getLogStreams logStreamMatcher (describeLogStreams w) (startTimeUnix st)
         = Returns (LogStreamNames st'))
  ∧ (∀ st0 ws e,
       Forall honest ws → Forall unfailing ws → honest w →
       (run logStreamMatcher logStreamRefresh endTimeIsZero st0 ws).2 = Loop st →
       e ∈ printedOf (iteration logStreamMatcher logStreamRefresh endTimeIsZero st w).1 →
       e ∉ concat (blocks logStreamMatcher logStreamRefresh endTimeIsZero st0 ws)).
Proof.
  intros Hsig Hnow.
  assert ((since (now w) zeroTime >? fiveMinutes) = true) as E.
  { unfold since, maxInt64, minInt64, zeroTime, fiveMinutes in *. lia. }
  split; [|split; [|split; [|split]]].
  - unfold receive. by rewrite Hsig.
  - unfold iteration, receive. rewrite Hsig. unfold discover. cbn [start].
    rewrite E.
    destruct (getLogStreams _ _ _); [destruct (fetch _ _ _ _)|..];
      simpl; rewrite !elem_of_cons; auto.
  - intros input Hin.
    destruct (LoopFacts.iteration_request logStreamMatcher logStreamRefresh
                endTimeIsZero st w input Hin) as [Hs He].
    split; [done|]. split; [done|].
    revert Hin. unfold iteration, receive. rewrite Hsig. unfold discover.
    cbn [start startTimeUnix endTimeUnix LogStreamNames]. rewrite E.
    destruct (getLogStreams logStreamMatcher (describeLogStreams w) (startTimeUnix st))
      as [names| |]; [|intros H; absurd_elem H..].
    set (st1 := mkState _ _ names _).
    destruct (LoopFacts.fetch_effects logStreamRefresh endTimeIsZero st1 w)
      as (tail & Hfx & Htail).
    destruct (fetch logStreamRefresh endTimeIsZero st1 w) as [fx2 nx].
    cbn [fst] in Hfx. subst fx2. intros H.
    apply elem_of_cons in H as [H|H]; [done|].
    apply elem_of_cons in H as [H|H]; [done|].
    apply elem_of_cons in H as [H|H]; [by injection H as ->|].
    apply elem_of_app in H as [H|H].
    + apply list_elem_of_fmap in H as (? & ? & _). done.
    + destruct Htail as [-> | [-> | ->]]; absurd_elem H.
  - intros st'. unfold iteration, receive. rewrite Hsig. unfold discover.
    cbn [start startTimeUnix endTimeUnix LogStreamNames]. rewrite E.
    destruct (getLogStreams logStreamMatcher (describeLogStreams w) (startTimeUnix st))
      as [names| |]; [|done..].
    set (st1 := mkState _ _ names _).
    assert (∀ st2, (fetch logStreamRefresh endTimeIsZero st1 w).2 = Loop st2 →
              start st2 = start st1 ∧ LogStreamNames st2 = LogStreamNames st1) as Hf.
    { intros st2. unfold fetch.
      destruct (fails _); [by intros [= <-]|].
      destruct (negb endTimeIsZero && _); [done|].
      destruct (bool_decide _); [by intros [= <-]|].
      destruct (negb logStreamRefresh); [done|]. by intros [= <-]. }
    destruct (fetch logStreamRefresh endTimeIsZero st1 w) as [fx2 nx].
    cbn [snd] in *. intros ->. destruct (Hf st' eq_refl) as [-> ->]. done.
  - intros st0 ws e Hh Hu Hhw Hrun He Hin.
    destruct (LoopFacts.run_watermark logStreamMatcher logStreamRefresh endTimeIsZero
                ws st0 Hh Hu) as (_ & _ & Hfin).
    destruct (Hfin st Hrun) as (_ & Hlt).
    apply list_elem_of_In, in_concat in Hin as (b & Hb & Hin).
    apply list_elem_of_In in Hb. apply list_elem_of_In in Hin.
    pose proof (Hlt b e Hb Hin).
    pose proof (LoopFacts.iteration_lower logStreamMatcher logStreamRefresh
                  endTimeIsZero st w e Hhw He).
    lia.
Qed.

Lemma restart_signal_witness :
  let st := mkState 6 1000 [] 0 in
  let w0 := mkWorld false 0 (mkPager [] false)
              (store [event "a" 5 2; event "b" 3 1] false) in
  let w := mkWorld true 1000000000
             (mkPager [listing [("app/bar-1", Some 9)] None] false)
             (store [event "a" 5 2; event "b" 3 1; event "c" 9 3] false) in
  (receive st w).2 = mkState 6 1000 [] zeroTime
  ∧ Discovering ∈ (iteration (λ _, true) true true st w).1
  ∧ (∀ input,
       Requested input ∈ (iteration (λ _, true) true true st w).1 →
       FilterLogEventsInput.StartTime input = 6
       ∧ FilterLogEventsInput.EndTime input = 1000
       ∧ getLogStreams (λ _, true) (describeLogStreams w) 6
         = Returns (FilterLogEventsInput.LogStreamNames input))
  ∧ (iteration (λ _, true) true true st w).2
    = Loop (mkState 10 1000 ["app/bar-1"] 1000000000)
  ∧ (start (mkState 10 1000 ["app/bar-1"] 1000000000) = now w
     ∧ getLogStreams (λ _, true) (describeLogStreams w) 6
       = Returns (LogStreamNames (mkState 10 1000 ["app/bar-1"] 1000000000)))
  ∧ (event "c" 9 3
       ∉ concat (blocks (λ _, true) true true (mkState 0 1000 [] zeroTime) [w0])).
Proof.
  intros st w0 w.
  assert (zeroTime + fiveMinutes < now w) as Hnow by (vm_compute; reflexivity).
  destruct (restart_signal (λ _, true) true true st w eq_refl Hnow)
    as (H1 & H2 & H3 & H4 & H5).
  split; [exact H1|]. split; [exact H2|]. split; [exact H3|].
  split; [reflexivity|]. split; [apply H4; reflexivity|].
  apply (H5 (mkState 0 1000 [] zeroTime) [w0]).
  - apply Forall_cons_2; [|apply Forall_nil_2].
    apply store_honest. repeat constructor.
  - apply Forall_cons_2; [apply store_unfailing|apply Forall_nil_2].
  - apply store_honest. repeat constructor.
  - reflexivity.
  - apply list_elem_of_singleton. reflexivity.
Defined.

(** C9, as stated, fails on main.go.  The first cycle prints the event at
    100 and then runs into a paging error, so the start of the window
    stays at 0; the next iteration receives the signal, asks for the same
    window and prints the event again. *)
Lemma restart_signal_counterexample :
  let st0 := mkState 0 1000 [] zeroTime in
  let wfail := mkWorld false 0 (mkPager [] false) (store [event "a" 100 1] true) in
  let wsig := mkWorld true 1000000000 (mkPager [] false)
                (store [event "a" 100 1] false) in
  signal wsig = true
  ∧ (run (λ _, true) true true st0 [wfail]).2 = Loop (mkState 0 1000 [] 0)
  ∧ printedOf (iteration (λ _, true) true true (mkState 0 1000 [] 0) wsig).1
    = [event "a" 100 1]
  ∧ blocks (λ _, true) true true st0 [wfail; wsig]
    = [[event "a" 100 1]; [event "a" 100 1]].
Proof. repeat split; reflexivity. Qed.

End LoopClaims.

(** * The second program: the claims *)

Section BatchClaims.

Import Batch.

(** C2 (the code at fault is line 391).  The program starts at Unix time
    1500000000 without an end time, so the end of the window is sixty
    seconds before: 1499999940000.  One iteration later, a second having
    passed in the loop of line 389, the end of the window is
    1499999939941000, the old end times a thousand less fifty-nine
    seconds: not the current time less sixty seconds, and far ahead of
    the current time. *)
Theorem live_end_recomputed :
  let nowUnix := 1500000000 in
  let st := mkState (nowUnix * 1000) (liveEnd nowUnix) [] in
  let w := mkWorld (mkPager [] false) (store [] false) in
  liveEnd nowUnix = 1499999940000
  ∧ iteration (λ _, true) false true (nowUnix * 1000) 1 st w
    = Some ([Slept oneSecond], Loop (mkState 1499999941000 1499999939941000 []))
  ∧ liveEnd (nowUnix + 1) = 1499999941000
  ∧ (nowUnix + 1) * 1000 < 1499999939941000.
Proof. repeat split. Qed.

(** C10 (the code at fault is lines 365-369).  A hundred stream names,
    the last of them "z": the loop makes one batch, of the first
    ninety-nine names, and "z" is in no batch. *)
Theorem batches_hundred :
  let logStreamNames := replicate 99 "a" ++ ["z"] in
  length logStreamNames = 100%nat
  ∧ batches logStreamNames = Some (Returns [replicate 99 "a"])
  ∧ "z" ∉ replicate 99 "a".
Proof.
  split; [reflexivity|]. split; [reflexivity|].
  intros H. apply elem_of_replicate in H as [H _]. discriminate H.
Qed.

End BatchClaims.

(** * Further properties of stream discovery *)

Module DiscoveryMore.
Import LogStream DescribeLogStreamsOutput Refresh.

Section Scan.

Variable logStreamMatcher : string → bool.
Variable bound : Z.

(** A scan that does not panic has met no candidate without a last
    event. *)
Lemma rangeItems_timed items s :
  rangeItems logStreamMatcher bound items s ≠ Panic →
  existsb untimed (reached bound items) = false.
Proof.
  revert s. induction items as [|item items IH]; intros s; simpl; [done|].
  unfold visit, untimed at 1, isOld.
  destruct (LastEventTimestamp item) as [ts|]; [|done]. simpl.
  destruct (bound >? ts); [done|]. apply IH.
Qed.

Lemma pagerLoop_timed ps s :
  consistent s →
  pagerLoop logStreamMatcher bound ps s ≠ Panic →
  existsb untimed (reached bound (candidates ps)) = false.
Proof.
  revert s. induction ps as [|page ps IH]; intros s Hs; simpl; [done|].
  rewrite RefreshFacts.candidates_cons, RefreshFacts.reached_app.
  set (s1 := mkScan _ _ _ _).
  assert (consistent s1) as Hs1 by done.
  pose proof (rangeItems_timed (LogStreams page) s1) as Ht.
  pose proof (RefreshFacts.rangeItems_spec logStreamMatcher bound
                (LogStreams page) s1 Hs1) as Hr.
  destruct (rangeItems logStreamMatcher bound (LogStreams page) s1) as [s2|s2|].
  - destruct Hr as (Hold & Hs2 & _). intros Hp.
    specialize (IH s2 Hs2 Hp). specialize (Ht ltac:(done)).
    rewrite Hold, existsb_app, IH, orb_false_r.
    by rewrite (RefreshFacts.reached_all _ _ Hold) in Ht.
  - destruct Hr as (Hold & _). intros _. rewrite Hold. by apply Ht.
  - done.
Qed.

Local Abbreviation chosen := (picked logStreamMatcher bound).

Lemma picked_app l k : chosen (l ++ k) = chosen l ++ chosen k.
Proof. unfold picked. by rewrite filter_app, fmap_app. Qed.

Lemma picked_cons item items :
  chosen (item :: items)
  = (if takes logStreamMatcher bound item then [LogStreamName item] else [])
      ++ chosen items.
Proof.
  unfold picked. rewrite filter_cons.
  destruct (decide (takes logStreamMatcher bound item = true)) as [E|E].
  - by rewrite E.
  - apply not_true_is_false in E. by rewrite E.
Qed.

(** One candidate, by cases. *)
Lemma visit_cases item s :
  consistent s →
  match LastEventTimestamp item with
  | None => visit logStreamMatcher bound item s = Panic
  | Some ts =>
      if bound >? ts
      then visit logStreamMatcher bound item s = BreakLoop s
           ∧ takes logStreamMatcher bound item = false
      else ∃ s1, visit logStreamMatcher bound item s = Go s1
                 ∧ consistent s1
                 ∧ logStreamNames s1
                   = logStreamNames s
                       ++ keepFirst (logStreamNames s)
                            (if takes logStreamMatcher bound item
                             then [LogStreamName item] else [])
  end.
Proof.
  intros Hs. pose proof (RefreshFacts.visit_spec logStreamMatcher bound item s Hs) as Hv.
  destruct Hs as [Hnd Hm].
  unfold visit, takes, isFresh in *.
  destruct (LastEventTimestamp item) as [ts|]; [|done].
  destruct (bound >? ts) eqn:Hold.
  - assert ((bound <=? ts) = false) as E by lia. by rewrite E.
  - assert ((bound <=? ts) = true) as E by lia. rewrite E in *. cbn [andb] in *.
    destruct (logStreamMatcher (LogStreamName item)); cbn [andb] in *.
    + destruct (isMatched s (LogStreamName item)) eqn:Hseen; cbn [negb] in *.
      * exists s. split; [done|]. split; [done|]. simpl.
        apply Hm in Hseen. rewrite bool_decide_eq_true_2 by done.
        by rewrite app_nil_r.
      * eexists. split; [done|]. split; [by destruct Hv as (_ & _ & ? & _)|].
        simpl. assert (LogStreamName item ∉ logStreamNames s) as Hnew.
        { intros Hin. apply Hm in Hin. congruence. }
        by rewrite bool_decide_eq_false_2.
    + exists s. split; [done|]. split; [done|]. simpl. by rewrite app_nil_r.
Qed.

Lemma keepFirst_app seen l k :
  keepFirst seen (l ++ k) = keepFirst seen l ++ keepFirst (seen ++ keepFirst seen l) k.
Proof.
  revert seen. induction l as [|n l IH]; intros seen; simpl.
  - by rewrite app_nil_r.
  - destruct (bool_decide (n ∈ seen)); [apply IH|].
    simpl. rewrite IH. by rewrite <- app_assoc.
Qed.

(** The names a scan of one page collects, in order. *)
Lemma rangeItems_names items s s' :
  consistent s →
  (rangeItems logStreamMatcher bound items s = Go s'
   ∨ rangeItems logStreamMatcher bound items s = BreakLoop s') →
  logStreamNames s'
  = logStreamNames s ++ keepFirst (logStreamNames s) (chosen (reached bound items)).
Proof.
  revert s. induction items as [|item items IH]; intros s Hs.
  - simpl. intros [[= <-]|?]; [|done]. by rewrite app_nil_r.
  - pose proof (visit_cases item s Hs) as Hv. cbn [rangeItems reached].
    unfold isOld. destruct (LastEventTimestamp item) as [ts|]; [|rewrite Hv; by intros [?|?]].
    destruct (bound >? ts).
    + destruct Hv as [-> Ht]. intros [?|[= <-]]; [done|].
      rewrite picked_cons, Ht. simpl. by rewrite app_nil_r.
    + destruct Hv as (s1 & -> & Hs1 & Hn1). intros Hr.
      rewrite (IH s1 Hs1 Hr), Hn1, picked_cons, keepFirst_app, <- app_assoc.
      done.
Qed.

(** The names a scan of a listing collects, in order. *)
Lemma pagerLoop_names ps s s' :
  consistent s →
  (pagerLoop logStreamMatcher bound ps s = Go s'
   ∨ pagerLoop logStreamMatcher bound ps s = BreakLoop s') →
  logStreamNames s'
  = logStreamNames s
      ++ keepFirst (logStreamNames s) (chosen (reached bound (candidates ps))).
Proof.
  revert s. induction ps as [|page ps IH]; intros s Hs.
  - simpl. intros [[= <-]|?]; [|done]. by rewrite app_nil_r.
  - cbn [pagerLoop]. rewrite RefreshFacts.candidates_cons, RefreshFacts.reached_app.
    set (s1 := mkScan _ _ _ _).
    assert (consistent s1) as Hs1 by done.
    pose proof (RefreshFacts.rangeItems_spec logStreamMatcher bound
                  (LogStreams page) s1 Hs1) as Hr.
    pose proof (rangeItems_names (LogStreams page) s1) as Hn.
    destruct (rangeItems logStreamMatcher bound (LogStreams page) s1) as [s2|s2|].
    + destruct Hr as (Hold & Hs2 & _). intros Hp.
      rewrite (IH s2 Hs2 Hp), (Hn s2 Hs1 (or_introl eq_refl)), Hold.
      rewrite (RefreshFacts.reached_all _ _ Hold).
      rewrite picked_app, keepFirst_app, <- app_assoc. done.
    + destruct Hr as (Hold & _). intros [?|[= <-]]; [done|].
      rewrite Hold. by apply Hn; [|right].
    + by intros [?|?].
Qed.

End Scan.

(** X1.  How [getLogStreams] of main.go ends, read off the listing.  It
    panics exactly when a candidate without a last event comes before any
    old candidate.  Otherwise it returns when an old candidate is met or
    the listing does not fail, and it never comes back when the listing
    fails with no old candidate on the pages delivered. *)
Theorem getLogStreams_outcome (logStreamMatcher : string → bool)
    (it : Pager DescribeLogStreamsOutput.t) (initialStartTime : Z) :
  match getLogStreams logStreamMatcher it initialStartTime with
  | Panics =>
      existsb untimed
        (reached (wrap64 (initialStartTime - threeHours)) (candidates (pages it))) = true
  | Returns _ =>
      existsb untimed
        (reached (wrap64 (initialStartTime - threeHours)) (candidates (pages it))) = false
      ∧ (existsb (isOld (wrap64 (initialStartTime - threeHours))) (candidates (pages it))
         = true
         ∨ fails it = false)
  | Spins =>
      existsb untimed
        (reached (wrap64 (initialStartTime - threeHours)) (candidates (pages it))) = false
      ∧ existsb (isOld (wrap64 (initialStartTime - threeHours))) (candidates (pages it))
        = false
      ∧ fails it = true
      ∧ ∀ fuel, outerLoop logStreamMatcher fuel (wrap64 (initialStartTime - threeHours))
                  (pages it) (fails it) emptyScan = None
  end.
Proof.
  set (bound := wrap64 (initialStartTime - threeHours)).
  pose proof (λ fuel, RefreshFacts.scanStreams_spins logStreamMatcher it
                        initialStartTime fuel) as Hspin.
  fold bound in Hspin.
  unfold getLogStreams. unfold scanStreams in *. fold bound in Hspin |- *.
  cbn [outerLoop] in *.
  pose proof (RefreshFacts.pagerLoop_spec logStreamMatcher bound (pages it)
                (mkScan [] ∅ false 0)
                (RefreshFacts.consistent_empty)) as Hp.
  pose proof (pagerLoop_timed logStreamMatcher bound (pages it)
                (mkScan [] ∅ false 0)
                (RefreshFacts.consistent_empty)) as Ht.
  cbn [logStreamNames matched consumed emptyScan] in *.
  destruct (pagerLoop logStreamMatcher bound (pages it) _) as [s1|s1|].
  - destruct Hp as (Hold & _). specialize (Ht ltac:(done)).
    destruct (negb (found s1)); cbn [andb] in *.
    + destruct (fails it); cbn [negb] in *; [|by auto].
      cbn [pagerLoop found negb andb] in *. auto.
    + cbn [pagerLoop found negb andb] in *.
      destruct (fails it); cbn [negb] in *; auto.
  - destruct Hp as (Hold & _). specialize (Ht ltac:(done)). auto.
  - destruct Hp as (item & Hin & Hnone).
    apply existsb_exists. exists item. split; [by apply list_elem_of_In|].
    unfold untimed. by rewrite Hnone.
Qed.

(** X2.  When [getLogStreams] of main.go returns, its result is, in the
    order of the listing, the first occurrence of each name among the
    candidates up to the first old one whose last event is at or after
    the bound and whose name matches. *)
Theorem getLogStreams_order (logStreamMatcher : string → bool)
    (it : Pager DescribeLogStreamsOutput.t) (initialStartTime : Z)
    (names : list string) :
  getLogStreams logStreamMatcher it initialStartTime = Returns names →
  names = keepFirst []
            (picked logStreamMatcher (wrap64 (initialStartTime - threeHours))
               (reached (wrap64 (initialStartTime - threeHours))
                  (candidates (pages it)))).
Proof.
  set (bound := wrap64 (initialStartTime - threeHours)).
  unfold getLogStreams, scanStreams. fold bound. cbn [outerLoop].
  pose proof (pagerLoop_names logStreamMatcher bound (pages it)
                (mkScan [] ∅ false 0)) as Hn.
  cbn [logStreamNames matched consumed emptyScan] in *.
  destruct (pagerLoop logStreamMatcher bound (pages it) _) as [s1|s1|]; [| |done].
  - specialize (Hn s1 (RefreshFacts.consistent_empty) (or_introl eq_refl)).
    simpl in Hn. rewrite <- Hn.
    destruct (negb (found s1) && negb (fails it)); [by intros [= <-]|].
    cbn [pagerLoop found negb andb logStreamNames].
    destruct (fails it); cbn [negb]; [done|]. by intros [= <-].
  - specialize (Hn s1 (RefreshFacts.consistent_empty) (or_intror eq_refl)).
    simpl in Hn. rewrite <- Hn. by intros [= <-].
Qed.

Lemma getLogStreams_order_witness :
  ["b/bar"; "a/bar"]
  = keepFirst []
      (picked (occursIn "bar") (wrap64 (20000000 - threeHours))
         (reached (wrap64 (20000000 - threeHours))
            (candidates
               [listing [("b/bar", Some 20000000); ("a/bar", Some 19000000);
                         ("c/baz", Some 18000000)] (Some "t");
                listing [("b/bar", Some 17000000); ("z/bar", Some 1);
                         ("y/bar", Some 16000000)] None]))).
Proof.
  apply (getLogStreams_order (occursIn "bar")
           (mkPager
              [listing [("b/bar", Some 20000000); ("a/bar", Some 19000000);
                        ("c/baz", Some 18000000)] (Some "t");
               listing [("b/bar", Some 17000000); ("z/bar", Some 1);
                        ("y/bar", Some 16000000)] None] true)
           20000000).
  reflexivity.
Defined.

End DiscoveryMore.

(** * Further properties of the loop of main.go *)

Module LoopMore.
Import Refresh.
Import FilteredLogEvent.

Section Loop.

Variable logStreamMatcher : string → bool.
Variable logStreamRefresh : bool.
Variable endTimeIsZero : bool.

Local Abbreviation fetch := (fetch logStreamRefresh endTimeIsZero).
Local Abbreviation iteration := (iteration logStreamMatcher logStreamRefresh endTimeIsZero).
Local Abbreviation run := (run logStreamMatcher logStreamRefresh endTimeIsZero).

(** The four ways a cycle can end. *)
Lemma fetch_shape st w :
  let printed := Requested (request st) :: (Printed <$> sortMsg (answer st w)) in
  (fails (filterLogEvents w (request st)) = true
   ∧ fetch st w = (printed ++ [ErrorPaging], Loop st))
  ∨ (fails (filterLogEvents w (request st)) = false
     ∧ fetch st w = (printed, Done))
  ∨ (fails (filterLogEvents w (request st)) = false
     ∧ answer st w = []
     ∧ fetch st w = (printed ++ [Slept fiveSeconds], Loop st))
  ∨ (fails (filterLogEvents w (request st)) = false
     ∧ answer st w ≠ []
     ∧ logStreamRefresh = true
     ∧ fetch st w
       = (printed,
          Loop (mkState (wrap64 (latestOf (answer st w) + 1)) (endTimeUnix st)
                        (LogStreamNames st) (start st)))).
Proof.
  intros printed. unfold Refresh.fetch. fold (answer st w). fold printed.
  destruct (fails (filterLogEvents w (request st))); [by left|]. right.
  destruct (negb endTimeIsZero && (endTimeUnix st <=? latestOf (answer st w)));
    [by left|].
  destruct (bool_decide (length (answer st w) = 0%nat)) eqn:Hlen.
  - right. left. apply LoopFacts.answer_nil in Hlen. by rewrite Hlen.
  - apply bool_decide_eq_false in Hlen.
    assert (answer st w ≠ []) as Hne by (intros E; by rewrite E in Hlen).
    destruct logStreamRefresh; [by right; right|by left].
Qed.

(** The effects and the end of an iteration whose discovery returns. *)
Lemma iteration_returns st w fx1 st1 :
  discover logStreamMatcher (receive st w).2 w = (fx1, Returns st1) →
  iteration st w = ((receive st w).1 ++ fx1 ++ (fetch st1 w).1, (fetch st1 w).2)
  ∧ startTimeUnix st1 = startTimeUnix st
  ∧ endTimeUnix st1 = endTimeUnix st
  ∧ printedOf ((receive st w).1 ++ fx1) = []
  ∧ sleptOf ((receive st w).1 ++ fx1) = []
  ∧ (ErrorPaging ∉ (receive st w).1 ++ fx1).
Proof.
  intros Hd.
  destruct (LoopFacts.receive_frame st w) as (Hs0 & He0 & _ & Hp0 & _).
  destruct (LoopFacts.discover_frame _ _ _ _ _ Hd) as (Hs1 & He1 & Hp1 & _).
  destruct (LoopFacts.prelude_quiet logStreamMatcher st w fx1 st1 Hd) as (Hq & Hsl).
  split; [|split; [congruence|split; [congruence|]]].
  - unfold Refresh.iteration. destruct (receive st w) as [fx0 st0]. simpl in Hd.
    rewrite Hd. by destruct (Refresh.fetch logStreamRefresh endTimeIsZero st1 w).
  - by rewrite LoopFacts.printedOf_app, Hp0, Hp1.
Qed.

Lemma iteration_stuck st w :
  (discover logStreamMatcher (receive st w).2 w).2 = Panics
  ∨ (discover logStreamMatcher (receive st w).2 w).2 = Spins →
  printedOf (iteration st w).1 = []
  ∧ sleptOf (iteration st w).1 = []
  ∧ ((iteration st w).2 = Panicked ∨ (iteration st w).2 = Spinning).
Proof.
  unfold Refresh.iteration, receive, Refresh.discover.
  destruct (signal w); cbn [fst snd start];
    destruct (since _ _ >? fiveMinutes); cbn [snd];
    try (intros [?|?]; done);
    destruct (getLogStreams _ _ _); cbn [snd]; intros [?|?]; try done; auto.
Qed.

Lemma foldr_max_out (output : list FilteredLogEvent.t) a b :
  foldr (λ e acc, Z.max (Timestamp e) acc) (Z.max a b) output
  = Z.max b (foldr (λ e acc, Z.max (Timestamp e) acc) a output).
Proof. induction output as [|e output IH]; simpl; [lia|]. rewrite IH. lia. Qed.

End Loop.

(** X3.  Whatever way an iteration of main.go ends, it prints every event
    the backend has delivered in it exactly once: what it prints is a
    rearrangement of the answer to its request, also when the paging
    failed after some pages or when main returns.  An iteration whose
    discovery panics or hangs prints nothing. *)
Theorem cycle_prints_answer (logStreamMatcher : string → bool)
    (logStreamRefresh endTimeIsZero : bool) (st : State) (w : World) :
  match (discover logStreamMatcher (receive st w).2 w).2 with
  | Returns st1 =>
      printedOf (iteration logStreamMatcher logStreamRefresh endTimeIsZero st w).1
      ≡ₚ answer st1 w
  | _ =>
      printedOf (iteration logStreamMatcher logStreamRefresh endTimeIsZero st w).1 = []
  end.
Proof.
  destruct (discover logStreamMatcher (receive st w).2 w) as [fx1 [st1| |]] eqn:Hd;
    cbn [snd].
  - destruct (iteration_returns logStreamMatcher logStreamRefresh endTimeIsZero
                st w fx1 st1 Hd) as (-> & _ & _ & Hp & _).
    cbn [fst]. rewrite app_assoc, LoopFacts.printedOf_app, Hp, LoopFacts.fetch_printed.
    apply LoopFacts.sortMsg_perm.
  - apply iteration_stuck. rewrite Hd. auto.
  - apply iteration_stuck. rewrite Hd. auto.
Qed.

(** X4.  [latest], the value the loop of lines 192-199 computes, is the
    largest of 0 and the timestamps received: it is never negative, and
    it is 0 when no timestamp is positive. *)
Theorem latest_is_max (output : list FilteredLogEvent.t) :
  latestOf output = foldr (λ e acc, Z.max (Timestamp e) acc) 0 output.
Proof.
  unfold latestOf. generalize 0. induction output as [|e output IH]; intros a; [done|].
  simpl. rewrite IH.
  replace (if Timestamp e >? a then Timestamp e else a) with (Z.max a (Timestamp e))
    by (destruct (Timestamp e >? a) eqn:E; lia).
  apply foldr_max_out.
Qed.

Section Monotone.

Variable logStreamMatcher : string → bool.
Variable logStreamRefresh : bool.
Variable endTimeIsZero : bool.

Local Abbreviation iteration := (iteration logStreamMatcher logStreamRefresh endTimeIsZero).
Local Abbreviation run := (run logStreamMatcher logStreamRefresh endTimeIsZero).

Lemma iteration_monotone st w st' :
  honest w → (iteration st w).2 = Loop st' →
  startTimeUnix st ≤ startTimeUnix st' ∧ endTimeUnix st' = endTimeUnix st.
Proof.
  intros Hh.
  destruct (discover logStreamMatcher (receive st w).2 w) as [fx1 [st1| |]] eqn:Hd.
  - destruct (iteration_returns logStreamMatcher logStreamRefresh endTimeIsZero
                st w fx1 st1 Hd) as (-> & Hs & He & _).
    cbn [snd].
    destruct (fetch_shape logStreamRefresh endTimeIsZero st1 w)
      as [(_ & ->)|[(_ & ->)|[(_ & _ & ->)|(_ & Hne & _ & ->)]]]; cbn [snd].
    + intros [= <-]. lia.
    + done.
    + intros [= <-]. lia.
    + intros [= <-]. cbn [startTimeUnix endTimeUnix]. split; [|done].
      destruct (LoopFacts.latestOf_spec (answer st1 w)) as (H0 & Hall & Hin).
      assert (∃ e, e ∈ answer st1 w) as [e0 He0].
      { destruct (answer st1 w) as [|e0 l]; [done|]. exists e0. apply elem_of_cons. auto. }
      assert (latestOf (answer st1 w) < maxInt64) as Hmax.
      { destruct Hin as [->|(e & Hin & <-)]; [done|]. by apply (Hh (request st1)). }
      rewrite wrap64_id by (unfold minInt64, maxInt64 in *; lia).
      pose proof (Hall e0 He0). pose proof (Hh (request st1) e0 He0) as [Hlo _].
      simpl in Hlo. lia.
  - destruct (iteration_stuck logStreamMatcher logStreamRefresh endTimeIsZero st w)
      as (_ & _ & [-> | ->]); [rewrite Hd; auto|done|done].
  - destruct (iteration_stuck logStreamMatcher logStreamRefresh endTimeIsZero st w)
      as (_ & _ & [-> | ->]); [rewrite Hd; auto|done|done].
Qed.

Lemma run_effects_cons st w ws :
  (run st (w :: ws)).1
  = (iteration st w).1
      :: match (iteration st w).2 with Loop st' => (run st' ws).1 | _ => [] end.
Proof.
  simpl. destruct (Refresh.iteration _ _ _ st w) as [fx [st'| | |]]; simpl; try done.
  by destruct (Refresh.run _ _ _ st' ws).
Qed.

End Monotone.

(** X5.  Against a backend that returns no event from before the
    requested start, the start of the window never moves back and the end
    never changes, paging errors or not: every request of a run asks for
    a window that starts at or after the first start and ends at the
    first end. *)
Theorem window_monotone (logStreamMatcher : string → bool)
    (logStreamRefresh endTimeIsZero : bool) (ws : list World) (st : State) :
  Forall honest ws →
  (∀ st', (run logStreamMatcher logStreamRefresh endTimeIsZero st ws).2 = Loop st' →
     startTimeUnix st ≤ startTimeUnix st' ∧ endTimeUnix st' = endTimeUnix st)
  ∧ (∀ fx input,
       fx ∈ (run logStreamMatcher logStreamRefresh endTimeIsZero st ws).1 →
       Requested input ∈ fx →
       startTimeUnix st ≤ FilterLogEventsInput.StartTime input
       ∧ FilterLogEventsInput.EndTime input = endTimeUnix st).
Proof.
  revert st. induction ws as [|w ws IH]; intros st Hh.
  - split.
    + simpl. intros st' [= <-]. lia.
    + simpl. intros fx input Hfx. by apply elem_of_nil in Hfx.
  - apply Forall_cons in Hh as [Hhw Hh].
    rewrite LoopFacts.run_cons, run_effects_cons.
    pose proof (iteration_monotone logStreamMatcher logStreamRefresh endTimeIsZero
                  st w) as Hmono.
    assert (∀ fx input,
              fx ∈ [(iteration logStreamMatcher logStreamRefresh endTimeIsZero st w).1] →
              Requested input ∈ fx →
              startTimeUnix st ≤ FilterLogEventsInput.StartTime input
              ∧ FilterLogEventsInput.EndTime input = endTimeUnix st) as Hfirst.
    { intros fx input Hfx Hin. apply list_elem_of_singleton in Hfx as ->.
      apply LoopFacts.iteration_request in Hin as [-> ->]. lia. }
    destruct ((iteration logStreamMatcher logStreamRefresh endTimeIsZero st w).2)
      as [st1| | |]; try (split; [done|exact Hfirst]).
    destruct (Hmono st1 Hhw eq_refl) as [Hle He].
    destruct (IH st1 Hh) as [Hfin Hreq]. split.
    + intros st' Hst'. destruct (Hfin st' Hst'). split; [lia|congruence].
    + intros fx input Hfx Hin. apply elem_of_cons in Hfx as [->|Hfx].
      * eapply Hfirst; [apply list_elem_of_singleton; reflexivity|exact Hin].
      * destruct (Hreq fx input Hfx Hin). split; [lia|congruence].
Qed.

Lemma window_monotone_witness :
  let w1 := mkWorld false 0 (mkPager [] false)
              (store [event "a" 5 2; event "b" 3 1] true) in
  let w2 := mkWorld false 0 (mkPager [] false)
              (store [event "a" 5 2; event "b" 3 1; event "c" 9 3] false) in
  let st := mkState 2 1000 [] zeroTime in
  (∀ st', (run (λ _, true) true true st [w1; w2; w2]).2 = Loop st' →
     2 ≤ startTimeUnix st' ∧ endTimeUnix st' = 1000)
  ∧ (∀ fx input,
       fx ∈ (run (λ _, true) true true st [w1; w2; w2]).1 →
       Requested input ∈ fx →
       2 ≤ FilterLogEventsInput.StartTime input
       ∧ FilterLogEventsInput.EndTime input = 1000).
Proof.
  intros w1 w2 st.
  apply (window_monotone (λ _, true) true true [w1; w2; w2] st).
  repeat apply Forall_cons_2; try apply Forall_nil_2;
    apply store_honest; repeat constructor.
Defined.

(** X6.  Without -log-stream-refresh main.go never moves its window: an
    iteration after which the loop goes on has either printed nothing or
    run into a paging error, and has left the start and the end of the
    window as they were.  The first iteration that prints events without
    a paging error is the last. *)
Theorem single_shot (logStreamMatcher : string → bool) (endTimeIsZero : bool)
    (st : State) (w : World) (fx : list Effect) (st' : State) :
  iteration logStreamMatcher false endTimeIsZero st w = (fx, Loop st') →
  startTimeUnix st' = startTimeUnix st
  ∧ endTimeUnix st' = endTimeUnix st
  ∧ (printedOf fx = [] ∨ ErrorPaging ∈ fx).
Proof.
  intros Hit.
  destruct (discover logStreamMatcher (receive st w).2 w) as [fx1 [st1| |]] eqn:Hd.
  - destruct (iteration_returns logStreamMatcher false endTimeIsZero
                st w fx1 st1 Hd) as (Hit' & Hs & He & Hp & _).
    rewrite Hit in Hit'. injection Hit' as -> Hnx.
    rewrite app_assoc, LoopFacts.printedOf_app, Hp, LoopFacts.fetch_printed.
    destruct (fetch_shape false endTimeIsZero st1 w)
      as [(_ & E)|[(_ & E)|[(_ & Hnil & E)|(_ & _ & ? & _)]]]; [| | |done];
      rewrite E in Hnx |- *; cbn [fst snd] in *.
    + injection Hnx as ->. split; [done|]. split; [done|]. right.
      rewrite !elem_of_app, list_elem_of_singleton. auto.
    + done.
    + injection Hnx as ->. split; [done|]. split; [done|]. left.
      by rewrite Hnil.
  - destruct (iteration_stuck logStreamMatcher false endTimeIsZero st w)
      as (_ & _ & Hstop); [rewrite Hd; auto|].
    rewrite Hit in Hstop. by destruct Hstop.
  - destruct (iteration_stuck logStreamMatcher false endTimeIsZero st w)
      as (_ & _ & Hstop); [rewrite Hd; auto|].
    rewrite Hit in Hstop. by destruct Hstop.
Qed.

Lemma single_shot_witness :
  startTimeUnix (mkState 0 1000 [] 0) = startTimeUnix (mkState 0 1000 [] zeroTime)
  ∧ endTimeUnix (mkState 0 1000 [] 0) = endTimeUnix (mkState 0 1000 [] zeroTime)
  ∧ (printedOf [Discovering; Requested (FilterLogEventsInput.mk [] 0 1000);
                Printed (event "a" 100 1); ErrorPaging] = []
     ∨ ErrorPaging ∈ [Discovering; Requested (FilterLogEventsInput.mk [] 0 1000);
                      Printed (event "a" 100 1); ErrorPaging]).
Proof.
  apply (single_shot (λ _, true) false (mkState 0 1000 [] zeroTime)
           (mkWorld false 0 (mkPager [] false) (store [event "a" 100 1] true))).
  reflexivity.
Defined.

(** X7.  The pacing of discovery.  Without a signal, an iteration that
    starts five minutes or less after the last discovery does not
    discover: if the loop goes on, the stream names and the time of the
    last discovery are as they were.  One that starts later discovers:
    if the loop goes on, the time of the last discovery is now and the
    stream names are what [getLogStreams] returned for the current start
    of the window. *)
Theorem discovery_pacing (logStreamMatcher : string → bool)
    (logStreamRefresh endTimeIsZero : bool) (st : State) (w : World) :
  signal w = false →
  (now w - start st ≤ fiveMinutes →
   (Discovering ∉ (iteration logStreamMatcher logStreamRefresh endTimeIsZero st w).1)
   ∧ ∀ st', (iteration logStreamMatcher logStreamRefresh endTimeIsZero st w).2 = Loop st' →
       LogStreamNames st' = LogStreamNames st ∧ start st' = start st)
  ∧ (fiveMinutes < now w - start st →
     Discovering ∈ (iteration logStreamMatcher logStreamRefresh endTimeIsZero st w).1
     ∧ ∀ st', (iteration logStreamMatcher logStreamRefresh endTimeIsZero st w).2 = Loop st' →
         start st' = now w
         ∧ getLogStreams logStreamMatcher (describeLogStreams w) (startTimeUnix st)
           = Returns (LogStreamNames st')).
Proof.
  intros Hsig. unfold iteration, receive. rewrite Hsig. unfold discover. split.
  - intros Hle.
    assert ((since (now w) (start st) >? fiveMinutes) = false) as E.
    { unfold since, maxInt64, minInt64, fiveMinutes in *. lia. }
    rewrite E.
    destruct (fetch_shape logStreamRefresh endTimeIsZero st w)
      as [(_ & ->)|[(_ & ->)|[(_ & _ & ->)|(_ & _ & _ & ->)]]]; cbn [fst snd app].
    + split; [|by intros st' [= <-]]. intros H.
      apply elem_of_cons in H as [H|H]; [done|].
      apply elem_of_app in H as [H|H]; [|absurd_elem H].
      apply list_elem_of_fmap in H as (? & ? & _). done.
    + split; [|done]. intros H.
      apply elem_of_cons in H as [H|H]; [done|].
      apply list_elem_of_fmap in H as (? & ? & _). done.
    + split; [|by intros st' [= <-]]. intros H.
      apply elem_of_cons in H as [H|H]; [done|].
      apply elem_of_app in H as [H|H]; [|absurd_elem H].
      apply list_elem_of_fmap in H as (? & ? & _). done.
    + split; [|by intros st' [= <-]]. intros H.
      apply elem_of_cons in H as [H|H]; [done|].
      apply list_elem_of_fmap in H as (? & ? & _). done.
  - intros Hgt.
    assert ((since (now w) (start st) >? fiveMinutes) = true) as E.
    { unfold since, maxInt64, minInt64, fiveMinutes in *. lia. }
    rewrite E.
    destruct (getLogStreams logStreamMatcher (describeLogStreams w) (startTimeUnix st))
      as [names| |]; [|split; [apply elem_of_cons; auto|done]..].
    set (st1 := mkState _ _ names _).
    destruct (fetch_shape logStreamRefresh endTimeIsZero st1 w)
      as [(_ & ->)|[(_ & ->)|[(_ & _ & ->)|(_ & _ & _ & ->)]]]; cbn [fst snd app];
      (split; [apply elem_of_cons; auto|]); try done; by intros st' [= <-].
Qed.

Lemma discovery_pacing_witness :
  let st := mkState 0 1000 ["old/bar"] 1000 in
  let quiet := mkWorld false (1000 + fiveMinutes)
                 (mkPager [listing [("new/bar", Some 5)] None] false)
                 (store [] false) in
  let due := mkWorld false (1001 + fiveMinutes)
               (mkPager [listing [("new/bar", Some 5)] None] false)
               (store [] false) in
  ((Discovering ∉ (iteration (λ _, true) true true st quiet).1)
   ∧ ∀ st', (iteration (λ _, true) true true st quiet).2 = Loop st' →
       LogStreamNames st' = ["old/bar"] ∧ start st' = 1000)
  ∧ (Discovering ∈ (iteration (λ _, true) true true st due).1
     ∧ ∀ st', (iteration (λ _, true) true true st due).2 = Loop st' →
         start st' = 1001 + fiveMinutes
         ∧ getLogStreams (λ _, true) (describeLogStreams due) 0
           = Returns (LogStreamNames st')).
Proof.
  intros st quiet due. split.
  - apply (proj1 (discovery_pacing (λ _, true) true true st quiet eq_refl)).
    simpl. lia.
  - apply (proj2 (discovery_pacing (λ _, true) true true st due eq_refl)).
    simpl. lia.
Defined.

(** X8.  main.go sleeps in one situation only, and there it does: after
    a cycle without a paging error that received no event and did not
    end the loop, it sleeps five seconds, once, and goes on with the
    state the cycle began with; in no other iteration does it sleep. *)
Theorem sleeps_when_idle (logStreamMatcher : string → bool)
    (logStreamRefresh endTimeIsZero : bool) (st : State) (w : World) :
  (sleptOf (iteration logStreamMatcher logStreamRefresh endTimeIsZero st w).1 = []
   ∨ (sleptOf (iteration logStreamMatcher logStreamRefresh endTimeIsZero st w).1
      = [fiveSeconds]
      ∧ printedOf (iteration logStreamMatcher logStreamRefresh endTimeIsZero st w).1 = []
      ∧ (ErrorPaging ∉ (iteration logStreamMatcher logStreamRefresh endTimeIsZero st w).1)
      ∧ ∃ st', (iteration logStreamMatcher logStreamRefresh endTimeIsZero st w).2 = Loop st'
               ∧ startTimeUnix st' = startTimeUnix st
               ∧ endTimeUnix st' = endTimeUnix st))
  ∧ (∀ fx1 st1,
       discover logStreamMatcher (receive st w).2 w = (fx1, Returns st1) →
       fails (filterLogEvents w (request st1)) = false →
       answer st1 w = [] →
       negb endTimeIsZero && (endTimeUnix st <=? 0) = false →
       sleptOf (iteration logStreamMatcher logStreamRefresh endTimeIsZero st w).1
       = [fiveSeconds]
       ∧ (iteration logStreamMatcher logStreamRefresh endTimeIsZero st w).2 = Loop st1).
Proof.
  split.
  {
  destruct (discover logStreamMatcher (receive st w).2 w) as [fx1 [st1| |]] eqn:Hd.
  - destruct (iteration_returns logStreamMatcher logStreamRefresh endTimeIsZero
                st w fx1 st1 Hd) as (-> & Hs & He & Hp & Hsl & Hq).
    cbn [fst snd]. rewrite !app_assoc, LoopFacts.sleptOf_app, LoopFacts.printedOf_app,
      Hsl, Hp, LoopFacts.fetch_printed.
    destruct (fetch_shape logStreamRefresh endTimeIsZero st1 w)
      as [(_ & ->)|[(_ & ->)|[(_ & Hnil & ->)|(_ & _ & _ & ->)]]]; cbn [fst snd app].
    + left. unfold sleptOf. simpl. rewrite omap_app. simpl.
      fold (sleptOf (Printed <$> sortMsg (answer st1 w))).
      by rewrite LoopFacts.sleptOf_Printed.
    + left. unfold sleptOf. simpl.
      fold (sleptOf (Printed <$> sortMsg (answer st1 w))).
      by rewrite LoopFacts.sleptOf_Printed.
    + right. rewrite Hnil. split; [done|]. split; [done|]. split; [|by exists st1].
      intros H. apply elem_of_app in H as [H|H]; [by apply Hq in H|].
      absurd_elem H.
    + left. unfold sleptOf. simpl.
      fold (sleptOf (Printed <$> sortMsg (answer st1 w))).
      by rewrite LoopFacts.sleptOf_Printed.
  - left. apply iteration_stuck. rewrite Hd. auto.
  - left. apply iteration_stuck. rewrite Hd. auto.
  }
  intros fx1 st1 Hd Hfail Hnil Hend.
  destruct (iteration_returns logStreamMatcher logStreamRefresh endTimeIsZero
              st w fx1 st1 Hd) as (-> & _ & He & _ & Hsl & _).
  cbn [fst snd]. rewrite app_assoc, LoopFacts.sleptOf_app, Hsl.
  unfold fetch. fold (answer st1 w). rewrite Hfail, Hnil, He.
  change (latestOf []) with 0. rewrite Hend. done.
Qed.

Lemma sleeps_when_idle_witness :
  let st := mkState 0 1000 [] zeroTime in
  let w := mkWorld false 0 (mkPager [] false) (store [] false) in
  sleptOf (iteration (λ _, true) true false st w).1 = [fiveSeconds]
  ∧ (iteration (λ _, true) true false st w).2 = Loop (mkState 0 1000 [] 0).
Proof.
  intros st w.
  apply (proj2 (sleeps_when_idle (λ _, true) true false st w)
           [Discovering] (mkState 0 1000 [] 0)); reflexivity.
Defined.

End LoopMore.

(** * Further properties of the second program *)

Module BatchMore.
Import Batch.

Lemma endOfRange_value len k :
  0 ≤ k → 100 * k < len →
  endOfRange len (100 * k) = if len - 100 * k <? 100 then len else 100 * k + 99.
Proof.
  intros Hk Hlt. unfold endOfRange.
  destruct (len - 100 * k <? 100) eqn:E.
  - assert ((len - 1 <? 100 * k + 99) = true) as -> by lia.
    rewrite Z.rem_mod_nonneg by lia.
    assert (len `mod` 100 = len - 100 * k) as ->; [|lia].
    symmetry. apply (Z.mod_unique_pos len 100 k); lia.
  - by assert ((len - 1 <? 100 * k + 99) = false) as -> by lia.
Qed.

Lemma batchesFrom_done fuel logStreamNames i :
  Z.of_nat (length logStreamNames) ≤ i →
  batchesFrom fuel logStreamNames i = Some (Returns []).
Proof.
  intros H. set (len := Z.of_nat (length logStreamNames)) in *.
  assert ((i <? len) = false) as E by lia.
  destruct fuel; cbn [batchesFrom]; fold len; by rewrite E.
Qed.

(** The loop of line 364 from index [100 * k] on. *)
Lemma batchesFrom_shape logStreamNames fuel k :
  0 ≤ k →
  Z.of_nat (length logStreamNames) - 100 * k ≤ 100 * Z.of_nat fuel →
  ∃ bs, batchesFrom fuel logStreamNames (100 * k) = Some (Returns bs)
        ∧ Forall (λ b, (1 ≤ length b ≤ 99)%nat) bs
        ∧ concat bs `sublist_of` drop (Z.to_nat (100 * k)) logStreamNames
        ∧ Z.of_nat (length (concat bs))
          = Z.max 0 (Z.of_nat (length logStreamNames) - 100 * k)
            - Z.max 0 (Z.of_nat (length logStreamNames) - 100 * k) / 100.
Proof.
  revert k. induction fuel as [|fuel IH]; intros k Hk Hfuel.
  - simpl. assert ((100 * k <? Z.of_nat (length logStreamNames)) = false) as -> by lia.
    exists []. split; [done|]. split; [done|]. split; [apply sublist_nil_l|].
    simpl. rewrite Z.max_l by lia. done.
  - cbn [batchesFrom].
    destruct (100 * k <? Z.of_nat (length logStreamNames)) eqn:Hlt.
    2:{ exists []. split; [done|]. split; [done|]. split; [apply sublist_nil_l|].
        simpl. rewrite Z.max_l by lia. done. }
    set (len := Z.of_nat (length logStreamNames)) in *.
    pose proof (endOfRange_value len k Hk ltac:(lia)) as He.
    assert (100 * k ≤ endOfRange len (100 * k) ≤ len
            ∧ 1 ≤ endOfRange len (100 * k) - 100 * k ≤ 99) as Hb.
    { rewrite He. destruct (len - 100 * k <? 100) eqn:E; lia. }
    unfold slice. fold len.
    assert ((0 <=? 100 * k) && (100 * k <=? endOfRange len (100 * k))
            && (endOfRange len (100 * k) <=? len) = true) as ->.
    { rewrite !andb_true_iff. lia. }
    replace (100 * k + 100) with (100 * (k + 1)) by lia.
    destruct (IH (k + 1)) as (bs & -> & Hall & Hsub & Hcount); [lia|lia|].
    set (n := Z.to_nat (endOfRange len (100 * k) - 100 * k)) in *.
    set (L := drop (Z.to_nat (100 * k)) logStreamNames) in *.
    assert (length L = Z.to_nat (len - 100 * k)) as HL.
    { unfold L. rewrite length_drop. unfold len. lia. }
    assert (length (take n L) = n) as Hn.
    { rewrite length_take. unfold n. lia. }
    eexists. split; [done|]. split; [|split].
    + constructor; [|done]. rewrite Hn. unfold n. lia.
    + simpl. rewrite <- (take_drop n L) at 2. apply sublist_app; [done|].
      assert (drop (Z.to_nat (100 * (k + 1))) logStreamNames
              = drop (100 - n) (drop n L)) as E.
      { unfold L. rewrite !drop_drop. f_equal. unfold n. lia. }
      rewrite E in Hsub. etrans; [exact Hsub|apply sublist_drop].
    + simpl. rewrite length_app, Hn, Nat2Z.inj_add, Hcount.
      unfold n. rewrite He.
      destruct (len - 100 * k <? 100) eqn:E.
      * rewrite (Z.max_l 0 (len - 100 * (k + 1))) by lia.
        rewrite (Z.max_r 0 (len - 100 * k)) by lia.
        rewrite (Z.div_small (len - 100 * k) 100) by lia.
        rewrite Zdiv_0_l, Z2Nat.id by lia. lia.
      * rewrite (Z.max_r 0 (len - 100 * (k + 1))) by lia.
        rewrite (Z.max_r 0 (len - 100 * k)) by lia.
        replace (len - 100 * k) with ((len - 100 * (k + 1)) + 1 * 100) by lia.
        rewrite Z.div_add by lia. rewrite Z2Nat.id by lia. lia.
Qed.

(** X9.  The batching loop of lines 364-369 never panics on its slice
    bounds and never runs out: for every list of stream names it yields
    batches of at least one and at most 99 names, which taken together
    are names of the list in the order of the list. *)
Theorem batches_bounds (logStreamNames : list string) :
  ∃ bs, batches logStreamNames = Some (Returns bs)
        ∧ Forall (λ b, (1 ≤ length b ≤ 99)%nat) bs
        ∧ concat bs `sublist_of` logStreamNames.
Proof.
  destruct (batchesFrom_shape logStreamNames (length logStreamNames) 0)
    as (bs & H & Hall & Hsub & _); [lia|lia|].
  exists bs. split; [exact H|]. split; [done|]. exact Hsub.
Qed.

(** X10.  How many names one pass queries: of [n] stream names the
    batches hold [n - n / 100], the name at every index that leaves
    remainder 99 being left out.  With fewer than a hundred names there
    is one batch, the whole list, and with none there is no batch. *)
Theorem batches_count (logStreamNames : list string) (bs : list (list string)) :
  batches logStreamNames = Some (Returns bs) →
  length (concat bs) = (length logStreamNames - length logStreamNames / 100)%nat
  ∧ ((length logStreamNames < 100)%nat →
     bs = if bool_decide (logStreamNames = []) then [] else [logStreamNames]).
Proof.
  intros Hbs.
  destruct (batchesFrom_shape logStreamNames (length logStreamNames) 0)
    as (bs' & H & Hall & Hsub & Hcount); [lia|lia|].
  unfold batches in Hbs. change (100 * 0) with 0 in H. rewrite Hbs in H.
  injection H as <-. split.
  - rewrite Z.sub_0_r, Z.max_r in Hcount by lia.
    rewrite <- (Nat2Z.inj_div _ 100), <- Nat2Z.inj_sub in Hcount
      by (apply Nat.Div0.div_le_upper_bound; lia).
    by apply Nat2Z.inj in Hcount.
  - intros Hshort. clear Hall Hsub Hcount. revert Hbs. unfold batches.
    destruct logStreamNames as [|x l]; [by intros [= <-]|].
    rewrite bool_decide_eq_false_2 by done.
    cbn [batchesFrom length] in *.
    assert (1 ≤ Z.of_nat (S (length l)) < 100) as Hlen by lia.
    pose proof (endOfRange_value (Z.of_nat (S (length l))) 0 ltac:(lia) ltac:(lia)) as He.
    change (100 * 0) with 0 in He.
    assert (take (Z.to_nat (Z.of_nat (S (length l)) - 0)) (drop (Z.to_nat 0) (x :: l))
            = x :: l) as Htake.
    { rewrite Z.sub_0_r, Nat2Z.id. change (Z.to_nat 0) with 0%nat.
      rewrite drop_0. by rewrite take_ge by (cbn [length]; lia). }
    unfold slice. cbn [length].
    set (len := Z.of_nat (S (length l))) in *.
    assert ((0 <? len) = true) as -> by lia.
    assert ((len - 0 <? 100) = true) as E by lia. rewrite E in He. rewrite He.
    assert ((0 <=? 0) && (0 <=? len) && (len <=? len) = true) as ->.
    { rewrite !andb_true_iff. lia. }
    rewrite (batchesFrom_done (length l) (x :: l) (0 + 100))
      by (cbn [length]; fold len; lia).
    rewrite Htake. by intros [= <-].
Qed.

Lemma batches_count_witness :
  length (concat [["a"; "b"; "c"]]) = (length ["a"; "b"; "c"] - length ["a"; "b"; "c"] / 100)%nat
  ∧ ((length ["a"; "b"; "c"] < 100)%nat →
     [["a"; "b"; "c"]]
     = if bool_decide (["a"; "b"; "c"] = []) then [] else [["a"; "b"; "c"]]).
Proof. apply (batches_count ["a"; "b"; "c"] [["a"; "b"; "c"]]). reflexivity. Defined.

(** X11.  With an end time the second program makes one pass: its loop
    body runs at most once and the iteration ends the loop, whatever the
    backend answers; when no stream was found the loop body does not run
    and nothing is requested or printed. *)
Theorem single_pass (logStreamMatcher : string → bool) (logStreamRefresh : bool)
    (initialStartTimeUnix : Z) (fuel : nat) (st : State) (w : World) :
  ∃ fx, iteration logStreamMatcher logStreamRefresh false initialStartTimeUnix fuel st w
        = Some (fx, Done)
        ∧ (streamNames st = [] → fx = []).
Proof.
  unfold iteration. rewrite orb_false_r.
  destruct (batches_bounds (streamNames st)) as (bs & -> & _).
  destruct (0 <? Z.of_nat (length (streamNames st))) eqn:Hlen.
  - destruct (fetchBatches bs st w) as [fx err]. rewrite andb_false_r.
    exists fx. split; [done|]. intros E. rewrite E in Hlen. done.
  - by exists [].
Qed.

(** X12.  The first failed request ends the pass: the events of the pages
    delivered up to then, the failed request's own pages included, are
    printed, the error is reported, and no later batch is requested. *)
Theorem first_failure_ends_pass (pre : list (list string)) (b : list string)
    (post : list (list string)) (st : State) (w : World) :
  Forall (λ b', fails (filterLogEvents w
                         (FilterLogEventsInput.mk b' (startTimeUnix st) (endTimeUnix st)))
                = false) pre →
  fails (filterLogEvents w
           (FilterLogEventsInput.mk b (startTimeUnix st) (endTimeUnix st))) = true →
  fetchBatches (pre ++ b :: post) st w
  = (Printed <$> concat
       ((λ b', concat (pages (filterLogEvents w
                                (FilterLogEventsInput.mk b' (startTimeUnix st)
                                   (endTimeUnix st)))))
          <$> (pre ++ [b])),
     true).
Proof.
  intros Hpre Hb. induction Hpre as [|b' pre Hb' _ IH].
  - simpl. rewrite Hb. by rewrite app_nil_r.
  - cbn [app fetchBatches]. rewrite Hb', IH. simpl. by rewrite (fmap_app Printed).
Qed.

Lemma first_failure_ends_pass_witness :
  let w := mkWorld (mkPager [] false)
             (λ input, mkPager [[event "a" 1 1]]
                         (bool_decide (FilterLogEventsInput.LogStreamNames input = ["s2"]))) in
  fetchBatches ([["s1"]] ++ ["s2"] :: [["s3"]]) (mkState 0 10 []) w
  = ([Printed (event "a" 1 1); Printed (event "a" 1 1)], true).
Proof.
  intros w.
  apply (first_failure_ends_pass [["s1"]] ["s2"] [["s3"]] (mkState 0 10 []) w).
  - apply Forall_cons_2; [reflexivity|apply Forall_nil_2].
  - reflexivity.
Defined.




End BatchMore.

(** * The label of a printed line: properties *)

Module LabelFacts.
Import Label.

Lemma Split_nonempty s : Split s ≠ [].
Proof.
  destruct s as [|c s]; [done|]. simpl.
  destruct (Ascii.eqb c "/"); [done|]. by destruct (Split s).
Qed.

Lemma Join_cons piece pieces :
  Join (piece :: pieces)
  = piece +:+ match pieces with [] => EmptyString | _ => String "/" (Join pieces) end.
Proof.
  destruct pieces; simpl; [|done].
  induction piece as [|c piece IH]; [done|].
  change (String c piece = String c (piece +:+ EmptyString)). by f_equal.
Qed.

(** Splitting at the slashes and joining with slashes gives the string
    back. *)
Lemma Join_Split s : Join (Split s) = s.
Proof.
  induction s as [|c s IH]; [done|]. cbn [Split].
  destruct (Ascii.eqb c "/") eqn:E.
  - apply Ascii.eqb_eq in E as ->.
    pose proof (Split_nonempty s) as Hne.
    destruct (Split s) as [|h t]; [done|].
    change (Join (EmptyString :: h :: t)) with (String "/" (Join (h :: t))).
    by rewrite IH.
  - pose proof (Split_nonempty s) as Hne.
    destruct (Split s) as [|h t]; [done|].
    rewrite Join_cons in IH |- *. rewrite <- IH. reflexivity.
Qed.

Lemma Split_head s :
  ∃ h t, Split s = h :: t ∧ hasSlash h = false.
Proof.
  induction s as [|c s (h & t & IH & Hh)]; [by exists EmptyString, []|].
  cbn [Split]. destruct (Ascii.eqb c "/") eqn:E.
  - by exists EmptyString, (Split s).
  - rewrite IH. exists (String c h), t. split; [done|]. simpl. by rewrite E, Hh.
Qed.

(** X14.  The label main.go prints in front of a message: [p[:1]] never
    panics, and the label is the part of the stream name before its first
    slash, the whole name when it has none. *)
Theorem shortName_prefix (name : string) :
  ∃ label rest,
    shortName name = Some label
    ∧ name = label +:+ rest
    ∧ hasSlash label = false
    ∧ (rest = EmptyString ∨ ∃ r, rest = String "/" r).
Proof.
  destruct (Split_head name) as (h & t & Hs & Hh).
  pose proof (Join_Split name) as Hj. rewrite Hs, Join_cons in Hj.
  exists h, (match t with [] => EmptyString | _ => String "/" (Join t) end).
  split; [|split; [done|split; [done|]]].
  - unfold shortName. rewrite Hs. unfold Batch.slice. cbn [length].
    assert (1 ≤ Z.of_nat (S (length t))) as Hlen by lia.
    set (len := Z.of_nat (S (length t))) in *.
    assert ((0 <=? 0) && (0 <=? 1) && (1 <=? len) = true) as ->.
    { rewrite !andb_true_iff. lia. }
    reflexivity.
  - destruct t; eauto.
Qed.

End LabelFacts.
